(** * Search-chunk builder: a shallow embedding of [scripts/build_search_chunks.py]

    The model comes first: the JSON values that [json.load] hands to the
    script and their serialisation by [json.dumps], [split_into_chunks],
    [extract_dialogues_recursive], the string operations of the loader,
    [load_all_dialogues], [compress_and_save_chunks] and [main], and the
    minification of [scripts/deploy.py].  The vocabulary of the statements
    and the properties follow.

    Modelling conventions.
    - A Python [str] is represented by the byte sequence of its UTF-8
      encoding, held in a Rocq [string]; [s.encode('utf-8')] is then the
      identity and [len(s.encode('utf-8'))] is [String.length].  Text that
      has no UTF-8 encoding (a lone surrogate) is outside the model.
    - A Python [dict] is the list of its items in insertion order; the keys
      of a dict are pairwise distinct, so a lookup takes the first match.
    - Exceptions are explicit: a computation that raises keeps every
      mutation done before the raise. *)

From Stdlib Require Import List String Ascii ZArith Lia Bool Arith DecimalString.
From Stdlib Require Import DecimalPos DecimalZ FinFun.
Import ListNotations.
Local Open Scope string_scope.
Local Open Scope list_scope.
Local Open Scope Z_scope.

Set Warnings "-register-all".

Infix "+++" := String.append (right associativity, at level 60).

(** ** JSON values, as [json.load] returns them *)

Inductive json : Type :=
| JNull
| JBool (b : bool)
| JInt (n : Z)
| JFloat (repr : string)   (* a float, carried as the text [float.__repr__] prints *)
| JStr (s : string)
| JArr (items : list json)
| JObj (members : list (string * json)).

(** The generated eliminator ignores the nested lists; this one does not. *)
Section JsonInduction.
Variable P : json -> Prop.
Hypothesis Hnull : P JNull.
Hypothesis Hbool : forall b, P (JBool b).
Hypothesis Hint : forall n, P (JInt n).
Hypothesis Hfloat : forall r, P (JFloat r).
Hypothesis Hstr : forall s, P (JStr s).
Hypothesis Harr : forall items, Forall P items -> P (JArr items).
Hypothesis Hobj :
  forall members, Forall (fun kv => P (snd kv)) members -> P (JObj members).

Fixpoint json_nested_ind (v : json) : P v :=
  match v with
  | JNull => Hnull
  | JBool b => Hbool b
  | JInt n => Hint n
  | JFloat r => Hfloat r
  | JStr s => Hstr s
  | JArr items =>
      Harr items
        ((fix all (l : list json) : Forall P l :=
            match l with
            | [] => Forall_nil P
            | x :: l' => Forall_cons x (json_nested_ind x) (all l')
            end) items)
  | JObj members =>
      Hobj members
        ((fix all (l : list (string * json)) : Forall (fun kv => P (snd kv)) l :=
            match l with
            | [] => Forall_nil _
            | kv :: l' =>
                Forall_cons (P := fun kv => P (snd kv)) kv
                  (json_nested_ind (snd kv)) (all l')
            end) members)
  end.
End JsonInduction.

(** [d[key]] / [key in d] on a dict. *)
Fixpoint dict_get (key : string) (members : list (string * json)) : option json :=
  match members with
  | [] => None
  | (k, v) :: rest => if String.eqb k key then Some v else dict_get key rest
  end.

(** ** [json.dumps(v, ensure_ascii=False, separators=(item_sep, key_sep))] *)

Definition dquote : string := String "034"%char EmptyString.
Definition backslash : string := String "092"%char EmptyString.

Definition hex_digit (n : nat) : string :=
  String (nth n (list_ascii_of_string "0123456789abcdef") "0"%char) EmptyString.

(** [json.encoder.ESCAPE_DCT]: backslash, double quote and the C0 controls. *)
Definition escape_char (c : ascii) : string :=
  let n := nat_of_ascii c in
  if Nat.eqb n 92 then backslash +++ backslash
  else if Nat.eqb n 34 then backslash +++ dquote
  else if Nat.eqb n 8 then backslash +++ "b"
  else if Nat.eqb n 12 then backslash +++ "f"
  else if Nat.eqb n 10 then backslash +++ "n"
  else if Nat.eqb n 13 then backslash +++ "r"
  else if Nat.eqb n 9 then backslash +++ "t"
  else if Nat.ltb n 32 then
    backslash +++ "u00" +++ hex_digit (Nat.div n 16) +++ hex_digit (Nat.modulo n 16)
  else String c EmptyString.

Fixpoint escape (s : string) : string :=
  match s with
  | EmptyString => EmptyString
  | String c s' => escape_char c +++ escape s'
  end.

(** [encode_basestring]: the escaped text between double quotes. *)
Definition quote (s : string) : string := dquote +++ escape s +++ dquote.

(** [sep.join(parts)] *)
Fixpoint join (sep : string) (parts : list string) : string :=
  match parts with
  | [] => EmptyString
  | [p] => p
  | p :: rest => p +++ sep +++ join sep rest
  end.

(** [int.__repr__] *)
Definition repr_int (n : Z) : string := NilZero.string_of_int (Z.to_int n).

Fixpoint dumps (item_sep key_sep : string) (v : json) : string :=
  match v with
  | JNull => "null"
  | JBool true => "true"
  | JBool false => "false"
  | JInt n => repr_int n
  | JFloat r => r
  | JStr s => quote s
  | JArr items => "[" +++ join item_sep (map (dumps item_sep key_sep) items) +++ "]"
  | JObj members =>
      "{" +++ join item_sep
                (map (fun kv => quote (fst kv) +++ key_sep
                                +++ dumps item_sep key_sep (snd kv))
                     members) +++ "}"
  end.

(** [json.dumps(v, ensure_ascii=False)]: the default separators. *)
Definition dumps_default : json -> string := dumps ", " ": ".

(** [json.dumps(v, ensure_ascii=False, separators=(',', ':'))] *)
Definition dumps_compact : json -> string := dumps "," ":".

(** [s.encode('utf-8')]: the representation already is the UTF-8 text. *)
Definition encode_utf8 (s : string) : string := s.

(** [len(b)] as a Python int. *)
Definition len (b : string) : Z := Z.of_nat (String.length b).

(** ** Records *)

(** The dict appended to [all_dialogues]; the fields are its five keys in
    insertion order.  [speaker], [content] and [title] are whatever JSON
    value the document holds there. *)
Record dialogue : Type := mkDialogue {
  scenarioType : string;
  scenarioId : string;
  speaker : json;
  content : json;
  title : json
}.

Definition dialogue_json (d : dialogue) : json :=
  JObj [ ("scenarioType", JStr (scenarioType d));
         ("scenarioId", JStr (scenarioId d));
         ("speaker", speaker d);
         ("content", content d);
         ("title", title d) ].

(** ** [split_into_chunks] *)

(** Lines 214-215: the size the splitter gives a record. *)
Definition dialogue_size (d : dialogue) : Z :=
  let dialogue_json := dumps_default (dialogue_json d) in
  len (encode_utf8 dialogue_json).

(** The three locals of the loop. *)
Record split_state : Type := mkSplit {
  chunks : list (list dialogue);
  current_chunk : list dialogue;
  current_size : Z
}.

(** Truth value of a list. *)
Definition truthy {A : Type} (l : list A) : bool :=
  match l with [] => false | _ :: _ => true end.

(** One iteration of the [for dialogue in dialogues] loop. *)
Definition split_step (chunk_size_bytes : Z) (st : split_state) (d : dialogue)
  : split_state :=
  let size := dialogue_size d in
  let st :=
    if (current_size st + size >? chunk_size_bytes) && truthy (current_chunk st)
    then mkSplit (chunks st ++ [current_chunk st]) [] 0
    else st in
  mkSplit (chunks st) (current_chunk st ++ [d]) (current_size st + size).

(** Lines 226-230: close the chunk still open after the loop. *)
Definition split_finish (st : split_state) : list (list dialogue) :=
  if truthy (current_chunk st) then chunks st ++ [current_chunk st] else chunks st.

Definition split_into_chunks (dialogues : list dialogue) (chunk_size_bytes : Z)
  : list (list dialogue) :=
  split_finish (fold_left (split_step chunk_size_bytes) dialogues (mkSplit [] [] 0)).

Definition CHUNK_SIZE_BYTES : Z := 4 * 1024 * 1024.

(** ** Computations that may raise

    A computation runs on a mutable store [S] and either returns a value or
    raises; the store it leaves behind is what Python leaves behind, also
    when it raises. *)

Inductive exn : Type :=
| OSError          (* [open] fails *)
| JSONDecodeError  (* [json.load] fails *)
| TypeError
| KeyError
| AttributeError
| ValueError
| RecursionError
| ZeroDivisionError.

Inductive outcome (A : Type) : Type :=
| Returned (a : A)
| Raised (e : exn).
Arguments Returned {A} a.
Arguments Raised {A} e.

Definition comp (S A : Type) : Type := S -> outcome A * S.

Definition ret {S A : Type} (a : A) : comp S A := fun s => (Returned a, s).

Definition raise {S A : Type} (e : exn) : comp S A := fun s => (Raised e, s).

Definition bind {S A B : Type} (c : comp S A) (k : A -> comp S B) : comp S B :=
  fun s =>
    match c s with
    | (Returned a, s') => k a s'
    | (Raised e, s') => (Raised e, s')
    end.

Notation "x <- c ;; k" := (bind c (fun x => k))
  (at level 61, c at next level, right associativity).
Notation "c ;; k" := (bind c (fun _ => k))
  (at level 61, right associativity).

(** [for x in l: body(x)] *)
Fixpoint for_each {S A : Type} (l : list A) (body : A -> comp S unit) : comp S unit :=
  match l with
  | [] => ret tt
  | x :: rest => body x ;; for_each rest body
  end.

(** [try: c / except Exception: continue]: the store as [c] left it. *)
Definition try_except {S : Type} (c : comp S unit) (s : S) : S := snd (c s).

(** ** [extract_dialogues_recursive] *)

(** The literal of line 41, in UTF-8. *)
Definition choice_marker : string :=
  string_of_list_ascii
    (map ascii_of_nat [233; 129; 184; 230; 138; 158; 232; 130; 162]%nat).

(** [all_dialogues.append(d)] *)
Definition append (d : dialogue) : comp (list dialogue) unit :=
  fun all_dialogues => (Returned tt, all_dialogues ++ [d]).

(** What [for branch_option in v] iterates over: the elements of a list, the
    keys of a dict, the characters of a str (one str each; they are listed
    here byte by byte, and no branch of the loop body looks inside them);
    anything else is not iterable. *)
Definition py_iter {S : Type} (v : json) : comp S (list json) :=
  match v with
  | JArr items => ret items
  | JObj members => ret (map (fun kv => JStr (fst kv)) members)
  | JStr s => ret (map (fun c => JStr (String c EmptyString)) (list_ascii_of_string s))
  | _ => raise TypeError
  end.

(** The function body, with the depth of Python's call stack made explicit:
    [depth] is the number of frames still available. *)
Fixpoint extract_rec (depth : nat) (dialogue_list : list json)
    (scenario_type scenario_id : string) (title : json)
  : comp (list dialogue) unit :=
  match depth with
  | O => raise RecursionError
  | S depth' =>
      for_each dialogue_list (fun item =>
        match item with
        | JArr [speaker; content] =>
            append (mkDialogue scenario_type scenario_id speaker content title)
        | JObj members =>
            match dict_get "branch" members with
            | Some branch =>
                options <- py_iter branch ;;
                for_each options (fun branch_option =>
                  match branch_option with
                  | JArr (choice_text :: branch_dialogues :: _) =>
                      append (mkDialogue scenario_type scenario_id
                                (JStr choice_marker) choice_text title) ;;
                      match branch_dialogues with
                      | JArr nested =>
                          extract_rec depth' nested scenario_type scenario_id title
                      | _ => ret tt
                      end
                  | _ => ret tt
                  end)
            | None => ret tt
            end
        | _ => ret tt
        end)
  end.

(** Nesting depth of a JSON value; [json.load] has already descended this
    deep on the same stack when it built the value. *)
Fixpoint json_depth (v : json) : nat :=
  match v with
  | JArr items => S (fold_right (fun x m => Nat.max (json_depth x) m) O items)
  | JObj members =>
      S (fold_right (fun kv m => Nat.max (json_depth (snd kv)) m) O members)
  | _ => O
  end.

Definition list_depth (l : list json) : nat :=
  fold_right (fun x m => Nat.max (json_depth x) m) O l.

(** The call as the script makes it: a list that was loaded never exhausts
    the stack ([extract_rec_stable] below), so the depth is not a parameter. *)
Definition extract_dialogues_recursive (dialogue_list : list json)
    (scenario_type scenario_id : string) (title : json)
  : comp (list dialogue) unit :=
  extract_rec (S (list_depth dialogue_list)) dialogue_list
    scenario_type scenario_id title.

(** ** The [str] methods the loader calls *)

(** [s.replace(old, new)] for a non-empty [old] (every [old] in the script
    is a non-empty literal): occurrences are replaced left to right, and
    [skip] counts the characters of a matched occurrence still to pass. *)
Fixpoint replace_from (old new : string) (skip : nat) (s : string) : string :=
  match s with
  | EmptyString => EmptyString
  | String c rest =>
      match skip with
      | S k => replace_from old new k rest
      | O =>
          if prefix old s
          then new +++ replace_from old new (String.length old - 1) rest
          else String c (replace_from old new O rest)
      end
  end.

Definition str_replace (old new s : string) : string := replace_from old new O s.

(** [s.split(sep)[0]] for a one-character [sep]: the text before the first
    [sep], or all of [s]. *)
Fixpoint first_field (sep : ascii) (s : string) : string :=
  match s with
  | EmptyString => EmptyString
  | String c rest =>
      if Ascii.eqb c sep then EmptyString else String c (first_field sep rest)
  end.

(** [key in s] on two strs. *)
Fixpoint is_substring (key s : string) : bool :=
  prefix key s ||
  match s with
  | EmptyString => false
  | String _ rest => is_substring key rest
  end.

Definition utf8 (codes : list nat) : string :=
  string_of_list_ascii (map ascii_of_nat codes).

(** The characters [str.strip()] removes, in UTF-8: U+0009..U+000D,
    U+001C..U+0020, U+0085, U+00A0, U+1680, U+2000..U+200A, U+2028, U+2029,
    U+202F, U+205F, U+3000. *)
Definition whitespace : list string :=
  map utf8
    [ [9]; [10]; [11]; [12]; [13]; [28]; [29]; [30]; [31]; [32];
      [194; 133]; [194; 160]; [225; 154; 128];
      [226; 128; 128]; [226; 128; 129]; [226; 128; 130]; [226; 128; 131];
      [226; 128; 132]; [226; 128; 133]; [226; 128; 134]; [226; 128; 135];
      [226; 128; 136]; [226; 128; 137]; [226; 128; 138];
      [226; 128; 168]; [226; 128; 169]; [226; 128; 175];
      [226; 129; 159]; [227; 128; 128] ]%nat.

Fixpoint drop (n : nat) (s : string) : string :=
  match n, s with
  | S k, String _ rest => drop k rest
  | _, _ => s
  end.

(** Remove one leading occurrence of one of [pats], if there is one. *)
Fixpoint drop_one (pats : list string) (s : string) : option string :=
  match pats with
  | [] => None
  | p :: more =>
      if prefix p s then Some (drop (String.length p) s) else drop_one more s
  end.

Fixpoint lstrip_of (pats : list string) (fuel : nat) (s : string) : string :=
  match fuel with
  | O => s
  | S fuel' =>
      match drop_one pats s with
      | Some s' => lstrip_of pats fuel' s'
      | None => s
      end
  end.

Definition reverse (s : string) : string :=
  string_of_list_ascii (rev (list_ascii_of_string s)).

Definition lstrip (s : string) : string :=
  lstrip_of whitespace (String.length s) s.

Definition rstrip (s : string) : string :=
  reverse (lstrip_of (map reverse whitespace) (String.length s) (reverse s)).

(** [s.strip()] *)
Definition strip (s : string) : string := rstrip (lstrip s).

(** ** [load_all_dialogues] *)

(** One entry of [sorted(path.glob(pattern))]: the file's stem and what
    [open] followed by [json.load] does on it. *)
Record json_file : Type := mkFile {
  stem : string;
  contents : outcome json
}.

(** The directories the loader looks into, under [public/scenario]. *)
Inductive directory : Type :=
| DirMain | DirCard | DirEvent | DirLove | DirCaulis
| DirEpSpot | DirEpChara | DirEpSpecial | DirEpSpecial1st | DirEpSpecial2nd
| DirEpCard | DirLoginCampaign | DirLoginEvent.

(** The corpus as the loader sees it: [None] when the path does not exist,
    otherwise the files matching the glob pattern used there, sorted.  (For
    [DirEpSpecial] only existence is read.) *)
Definition corpus : Type := directory -> option (list json_file).

(** The two accumulators of [load_all_dialogues]; [event_names] is a dict
    from int to str. *)
Record accumulators : Type := mkAcc {
  all_dialogues : list dialogue;
  event_names : list (Z * string)
}.

Fixpoint names_get (event_id : Z) (names : list (Z * string)) : option string :=
  match names with
  | [] => None
  | (k, v) :: rest => if Z.eqb k event_id then Some v else names_get event_id rest
  end.

(** Run a computation on [all_dialogues], the list object handed to
    [extract_dialogues_recursive]. *)
Definition on_dialogues {A : Type} (c : comp (list dialogue) A)
  : comp accumulators A :=
  fun acc =>
    let '(r, ds) := c (all_dialogues acc) in
    (r, mkAcc ds (event_names acc)).

(** [if event_id not in event_names: event_names[event_id] = event_title] *)
Definition record_event_name (event_id : Z) (event_title : string)
  : comp accumulators unit :=
  fun acc =>
    match names_get event_id (event_names acc) with
    | Some _ => (Returned tt, acc)
    | None =>
        (Returned tt,
         mkAcc (all_dialogues acc) (event_names acc ++ [(event_id, event_title)]))
    end.

(** [with open(json_file) as f: data = json.load(f)] *)
Definition load {S : Type} (f : json_file) : comp S json :=
  fun s => (contents f, s).

(** [key in data] *)
Definition py_in {S : Type} (key : string) (data : json) : comp S bool :=
  match data with
  | JObj members =>
      ret (match dict_get key members with Some _ => true | None => false end)
  | JArr items =>
      ret (existsb (fun x => match x with
                             | JStr s => String.eqb s key
                             | _ => false
                             end) items)
  | JStr s => ret (is_substring key s)
  | _ => raise TypeError
  end.

(** [data[key]] for a str [key] *)
Definition py_getitem {S : Type} (data : json) (key : string) : comp S json :=
  match data with
  | JObj members =>
      match dict_get key members with
      | Some v => ret v
      | None => raise KeyError
      end
  | _ => raise TypeError
  end.

(** [data.get(key, default)] *)
Definition py_get {S : Type} (data : json) (key : string) (default : json)
  : comp S json :=
  match data with
  | JObj members =>
      match dict_get key members with
      | Some v => ret v
      | None => ret default
      end
  | _ => raise AttributeError
  end.

(** [data['Title'].split('|')[0]] *)
Definition title_head {S : Type} (v : json) : comp S string :=
  match v with
  | JStr s => ret (first_field "|" s)
  | _ => raise AttributeError
  end.

(** Lines 92-94, the same in every branch of the loader:
    [if 'Dialogue' in data and isinstance(data['Dialogue'], list): ...] *)
Definition extract_document (data : json) (scenario_type scenario_id : string)
  : comp accumulators unit :=
  has_dialogue <- py_in "Dialogue" data ;;
  if has_dialogue then
    dialogue_list <- py_getitem data "Dialogue" ;;
    match dialogue_list with
    | JArr items =>
        title <- py_get data "Title" (JStr "") ;;
        on_dialogues
          (extract_dialogues_recursive items scenario_type scenario_id title)
    | _ => ret tt
    end
  else ret tt.

Definition event_bearing (scenario_type : string) : bool :=
  String.eqb scenario_type "event" || String.eqb scenario_type "caulis".

Definition regular_scenario_id (scenario_type : string) (f : json_file) : string :=
  if String.eqb scenario_type "caulis"
  then str_replace "caulis_story_" "" (stem f)
  else str_replace ("scenario_" +++ scenario_type +++ "_") "" (stem f).

Section Pipeline.

(** [int(text)], the built-in: [None] when it raises [ValueError]. *)
Variable py_int : string -> option Z.

Definition parse_int {S : Type} (text : string) : comp S Z :=
  match py_int text with
  | Some n => ret n
  | None => raise ValueError
  end.

(** Lines 83-89. *)
Definition extract_event_name (data : json) (scenario_type scenario_id : string)
  : comp accumulators unit :=
  has_title <- (if event_bearing scenario_type then py_in "Title" data
                else ret false) ;;
  if has_title then
    title_value <- py_getitem data "Title" ;;
    first_part <- title_head title_value ;;
    let event_title := strip (str_replace "<br>" " " first_part) in
    event_id <- parse_int (first_field "-" scenario_id) ;;
    record_event_name event_id event_title
  else ret tt.

(** Lines 74-94: the body of the [try] for a regular type. *)
Definition process_regular (scenario_type : string) (f : json_file)
  : comp accumulators unit :=
  data <- load f ;;
  let scenario_id := regular_scenario_id scenario_type f in
  extract_event_name data scenario_type scenario_id ;;
  extract_document data scenario_type scenario_id.

(** The body of the [try] for the special types (lines 120-130, 140-150,
    164-174, 188-198). *)
Definition process_special (scenario_type file_prefix : string) (f : json_file)
  : comp accumulators unit :=
  data <- load f ;;
  let scenario_id := str_replace file_prefix "" (stem f) in
  extract_document data scenario_type scenario_id.

(** [for json_file in json_files: try: body except Exception: continue] *)
Definition each_file (body : json_file -> comp accumulators unit)
    (json_files : list json_file) (acc : accumulators) : accumulators :=
  fold_left (fun a f => try_except (body f) a) json_files acc.

(** A directory that does not exist is passed over. *)
Definition scan (c : corpus) (d : directory)
    (body : json_file -> comp accumulators unit) (acc : accumulators)
  : accumulators :=
  match c d with
  | Some json_files => each_file body json_files acc
  | None => acc
  end.

Definition regular_directory (scenario_type : string) : directory :=
  if String.eqb scenario_type "main" then DirMain
  else if String.eqb scenario_type "card" then DirCard
  else if String.eqb scenario_type "event" then DirEvent
  else if String.eqb scenario_type "love" then DirLove
  else DirCaulis.

Definition types : list string := ["main"; "card"; "event"; "love"; "caulis"].

(** Lines 60-98. *)
Definition load_regular (c : corpus) (acc : accumulators) : accumulators :=
  fold_left
    (fun a scenario_type =>
       scan c (regular_directory scenario_type) (process_regular scenario_type) a)
    types acc.

(** Lines 102-154: [ep], with its sub-directories in the listed order. *)
Definition load_ep (c : corpus) (acc : accumulators) : accumulators :=
  let acc := scan c DirEpSpot (process_special "ep-spot" "iku_epi_") acc in
  let acc := scan c DirEpChara (process_special "ep-chara" "iku_epi_") acc in
  let acc :=
    match c DirEpSpecial with
    | Some _ =>
        let acc :=
          scan c DirEpSpecial1st (process_special "ep-special-1st" "iku_epi_") acc in
        scan c DirEpSpecial2nd (process_special "ep-special-2nd" "iku_epi_") acc
    | None => acc
    end in
  scan c DirEpCard (process_special "ep-card" "iku_epi_") acc.

(** Lines 100-202. *)
Definition load_special (c : corpus) (acc : accumulators) : accumulators :=
  let acc := load_ep c acc in
  let acc :=
    scan c DirLoginCampaign (process_special "campaign" "scenario_login_") acc in
  scan c DirLoginEvent (process_special "login-event" "scenario_login_") acc.

Definition load_all_dialogues (c : corpus) : list dialogue * list (Z * string) :=
  let acc := load_special c (load_regular c (mkAcc [] [])) in
  (all_dialogues acc, event_names acc).

(** ** [compress_and_save_chunks] and [main] *)

(** [gzip.compress(data, compresslevel=9)], the library call: the bytes it
    returns for [data] when the header time it reads from the system clock
    is [mtime] (no [mtime] argument is passed at line 259). *)
Variable gzip_compress : Z -> string -> string.

(** What one run reads from the system clock. *)
Record clock : Type := mkClock {
  today : string;          (* [datetime.now().strftime('%Y-%m-%d')], line 307 *)
  now_iso : string;        (* [datetime.now().isoformat()], line 239 *)
  gzip_time : nat -> Z     (* the header time of the [idx]-th [gzip.compress] *)
}.

(** An entry of [chunk_manifest['chunks']]. *)
Record chunk_entry : Type := mkEntry {
  filename : string;
  index : Z;
  uncompressedSize : Z;
  compressedSize : Z;
  dialogueCount : Z
}.

(** [chunk_manifest] as it is dumped to [manifest.json]. *)
Record manifest : Type := mkManifest {
  version : string;
  timestamp : string;
  totalChunks : Z;
  manifest_chunks : list chunk_entry;
  eventNames : list (Z * string);
  totalCompressedSize : Z
}.

(** [chunk_data], lines 248-252. *)
Definition chunk_data (idx : nat) (total : nat) (chunk : list dialogue) : json :=
  JObj [ ("dialogues", JArr (map dialogue_json chunk));
         ("chunkIndex", JInt (Z.of_nat idx));
         ("totalChunks", JInt (Z.of_nat total)) ].

(** Lines 255-256. *)
Definition chunk_bytes (idx : nat) (total : nat) (chunk : list dialogue) : string :=
  let json_str := dumps_compact (chunk_data idx total chunk) in
  encode_utf8 json_str.

Definition chunk_filename (idx : nat) : string :=
  "search-chunk-" +++ repr_int (Z.of_nat idx) +++ ".gz".

(** What the loop of lines 247-286 has built so far. *)
Record pack_state : Type := mkPack {
  written : list (string * string);    (* path under the output directory, bytes *)
  entries : list chunk_entry;
  total_uncompressed : Z;
  total_compressed : Z
}.

Definition pack_step (total : nat) (k : clock) (st : pack_state)
    (item : nat * list dialogue) : pack_state :=
  let '(idx, chunk) := item in
  let json_bytes := chunk_bytes idx total chunk in
  let compressed := gzip_compress (gzip_time k idx) json_bytes in
  let uncompressed_size := len json_bytes in
  let compressed_size := len compressed in
  mkPack (written st ++ [(chunk_filename idx, compressed)])
         (entries st ++ [mkEntry (chunk_filename idx) (Z.of_nat idx)
                           uncompressed_size compressed_size
                           (Z.of_nat (List.length chunk))])
         (total_uncompressed st + uncompressed_size)
         (total_compressed st + compressed_size).

(** [enumerate(l)] *)
Definition enumerate {A : Type} (l : list A) : list (nat * A) :=
  combine (seq O (List.length l)) l.

(** What a run leaves on disk, and how it ended. *)
Record build_output : Type := mkOutput {
  chunk_files : list (string * string);
  manifest_file : manifest;
  finished : outcome unit
}.

(** The chunk files are written in the loop and the manifest after it (line
    295); the summary of line 301 then divides by [total_uncompressed]. *)
Definition compress_and_save_chunks (chunk_list : list (list dialogue))
    (names : list (Z * string)) (version_token : string) (k : clock)
  : build_output :=
  let total := List.length chunk_list in
  let st := fold_left (pack_step total k) (enumerate chunk_list)
                      (mkPack [] [] 0 0) in
  mkOutput (written st)
           (mkManifest version_token (now_iso k) (Z.of_nat total) (entries st)
                       names (total_compressed st))
           (if total_uncompressed st =? 0 then Raised ZeroDivisionError
            else Returned tt).

Definition main (c : corpus) (k : clock) : build_output :=
  let version_token := today k in
  let '(dialogues, names) := load_all_dialogues c in
  let chunk_list := split_into_chunks dialogues CHUNK_SIZE_BYTES in
  compress_and_save_chunks chunk_list names version_token k.

End Pipeline.

(** * [scripts/deploy.py]: minification

    The target directory is a store from paths to file texts.  Creating
    directories and opening a file for writing are taken to succeed; only
    reading and parsing the source can fail. *)

Definition tree : Type := string -> option string.

(** [with open(path, 'w', encoding='utf-8') as f: f.write(text)] *)
Definition write_text (path text : string) (t : tree) : tree :=
  fun p => if String.eqb p path then Some text else t p.

(** [minify_json(input_file, output_file)]; [input] is what [open] and
    [json.load] do on [input_file]. *)
Definition minify_json (input : outcome json) (output_file : string) (t : tree)
  : bool * tree :=
  match input with
  | Returned data => (true, write_text output_file (dumps_compact data) t)
  | Raised _ => (false, t)
  end.

(** [target_dir / relative_path] *)
Definition join_path (dir relative_path : string) : string :=
  dir +++ "/" +++ relative_path.

(** One iteration of the loop of [minify_scenario_files]; a source file is
    its path relative to [source_dir] and what reading it gives. *)
Definition minify_step (target_dir : string) (st : Z * tree)
    (json_file : string * outcome json) : Z * tree :=
  let '(success_count, t) := st in
  let output_file := join_path target_dir (fst json_file) in
  let '(ok, t') := minify_json (snd json_file) output_file t in
  (if ok then success_count + 1 else success_count, t').

(** [minify_scenario_files(source_dir, target_dir)]; [json_files] is
    [list(source_dir.glob('**/*.json'))]. *)
Definition minify_scenario_files (json_files : list (string * outcome json))
    (target_dir : string) (t : tree) : bool * tree :=
  match json_files with
  | [] => (true, t)
  | _ :: _ =>
      let '(success_count, t') :=
        fold_left (minify_step target_dir) json_files (0, t) in
      (success_count =? Z.of_nat (List.length json_files), t')
  end.

(** * Vocabulary of the statements *)

(** ** Sizes *)

(** The running total the splitter keeps for a chunk: the sum of the sizes
    of its records. *)
Definition chunk_size (chunk : list dialogue) : Z :=
  fold_right (fun d acc => dialogue_size d + acc) 0 chunk.

(** A closed chunk is within budget, or is one record that alone exceeds it. *)
Definition within_budget (B : Z) (chunk : list dialogue) : Prop :=
  chunk_size chunk <= B \/ exists d, chunk = [d] /\ dialogue_size d > B.

(** What the loop of [split_into_chunks] maintains. *)
Definition split_inv (B : Z) (st : split_state) : Prop :=
  current_size st = chunk_size (current_chunk st)
  /\ Forall (within_budget B) (chunks st)
  /\ (current_chunk st = [] \/ within_budget B (current_chunk st))
  /\ Forall (fun c => c <> []) (chunks st).

(** The size of a record in the encoding the chunk files are written in. *)
Definition compact_size (d : dialogue) : Z :=
  len (encode_utf8 (dumps_compact (dialogue_json d))).

(** The records of a chunk in that encoding, added up. *)
Definition compact_total (chunk : list dialogue) : Z :=
  fold_right (fun d acc => compact_size d + acc) 0 chunk.

(** The bound on the bytes written for each chunk: at most [B], unless the
    chunk is a single record that is itself larger than [B] (in either
    encoding). *)
Definition written_size_bound (R : list dialogue) (B : Z) : Prop :=
  let cs := split_into_chunks R B in
  Forall (fun ic =>
            len (chunk_bytes (fst ic) (List.length cs) (snd ic)) <= B
            \/ exists d, snd ic = [d]
                         /\ (compact_size d > B \/ dialogue_size d > B))
         (enumerate cs).

(** Two small records of the main story. *)
Definition line_a : dialogue :=
  mkDialogue "main" "001" (JStr "A") (JStr "hi") (JStr "T").

Definition line_b : dialogue :=
  mkDialogue "main" "001" (JStr "B") (JStr "yo") (JStr "T").

(** ** Dialogue trees, as the specification describes them *)

(** A Line is a pair (speaker, content); a Branch is a list of options, each
    a choice label with the nodes that follow it. *)
Inductive node : Type :=
| Line (speaker content : json)
| Branch (options : list (json * list node)).

(** The JSON a node is written as in a document. *)
Fixpoint node_json (n : node) : json :=
  match n with
  | Line speaker content => JArr [speaker; content]
  | Branch options =>
      JObj [ ("branch",
              JArr (map (fun o => JArr [fst o; JArr (map node_json (snd o))])
                        options)) ]
  end.

(** Depth-first, left-to-right flattening, following the specification: a
    Line gives one record; a Branch gives, option by option, the choice
    record and then the records of the option's nodes. *)
Fixpoint flatten (scenario_type scenario_id : string) (title : json) (n : node)
  : list dialogue :=
  match n with
  | Line speaker content =>
      [mkDialogue scenario_type scenario_id speaker content title]
  | Branch options =>
      flat_map
        (fun o =>
           mkDialogue scenario_type scenario_id (JStr choice_marker) (fst o) title
           :: flat_map (flatten scenario_type scenario_id title) (snd o))
        options
  end.

Section NodeInduction.
Variable P : node -> Prop.
Hypothesis Hline : forall speaker content, P (Line speaker content).
Hypothesis Hbranch :
  forall options, Forall (fun o => Forall P (snd o)) options -> P (Branch options).

Fixpoint node_nested_ind (n : node) : P n :=
  match n with
  | Line speaker content => Hline speaker content
  | Branch options =>
      Hbranch options
        ((fix each_option (l : list (json * list node))
            : Forall (fun o => Forall P (snd o)) l :=
            match l with
            | [] => Forall_nil _
            | o :: l' =>
                Forall_cons (P := fun o => Forall P (snd o)) o
                  ((fix each_node (ns : list node) : Forall P ns :=
                      match ns with
                      | [] => Forall_nil P
                      | x :: ns' => Forall_cons x (node_nested_ind x) (each_node ns')
                      end) (snd o))
                  (each_option l')
            end) options)
  end.
End NodeInduction.

(** ** The loop bodies of [extract_dialogues_recursive], with the recursive
    call as a parameter *)

Definition option_body (recur : list json -> comp (list dialogue) unit)
    (scenario_type scenario_id : string) (title : json) (branch_option : json)
  : comp (list dialogue) unit :=
  match branch_option with
  | JArr (choice_text :: branch_dialogues :: _) =>
      append (mkDialogue scenario_type scenario_id
                (JStr choice_marker) choice_text title) ;;
      match branch_dialogues with
      | JArr nested => recur nested
      | _ => ret tt
      end
  | _ => ret tt
  end.

Definition item_body (recur : list json -> comp (list dialogue) unit)
    (scenario_type scenario_id : string) (title : json) (item : json)
  : comp (list dialogue) unit :=
  match item with
  | JArr [speaker; content] =>
      append (mkDialogue scenario_type scenario_id speaker content title)
  | JObj members =>
      match dict_get "branch" members with
      | Some branch =>
          options <- py_iter branch ;;
          for_each options (option_body recur scenario_type scenario_id title)
      | None => ret tt
      end
  | _ => ret tt
  end.

(** A computation on [all_dialogues] that only appends: what it returns and
    what it adds do not depend on what the list already holds. *)
Definition appends_only {A : Type} (c : comp (list dialogue) A) : Prop :=
  forall s, c s = (fst (c []), s ++ snd (c [])).

(** ** Documents in discovery order *)

(** The files the loader reads in a directory: none when the directory is
    missing, and none under [ep/special] when that directory is missing. *)
Definition visible (c : corpus) (d : directory) : list json_file :=
  let listing := match c d with Some json_files => json_files | None => [] end in
  match d with
  | DirEpSpecial1st | DirEpSpecial2nd =>
      match c DirEpSpecial with Some _ => listing | None => [] end
  | _ => listing
  end.

(** A document together with the branch of the loader that reads it. *)
Inductive document : Type :=
| Regular (scenario_type : string) (f : json_file)
| Special (scenario_type file_prefix : string) (f : json_file).

Definition file_of (doc : document) : json_file :=
  match doc with
  | Regular _ f => f
  | Special _ _ f => f
  end.

Definition special_directories : list (directory * (string * string)) :=
  [ (DirEpSpot, ("ep-spot", "iku_epi_"));
    (DirEpChara, ("ep-chara", "iku_epi_"));
    (DirEpSpecial1st, ("ep-special-1st", "iku_epi_"));
    (DirEpSpecial2nd, ("ep-special-2nd", "iku_epi_"));
    (DirEpCard, ("ep-card", "iku_epi_"));
    (DirLoginCampaign, ("campaign", "scenario_login_"));
    (DirLoginEvent, ("login-event", "scenario_login_")) ].

(** Every document of the corpus, in the order the loader reaches it. *)
Definition discovery (c : corpus) : list document :=
  flat_map (fun scenario_type =>
              map (Regular scenario_type)
                  (visible c (regular_directory scenario_type))) types
  ++ flat_map (fun entry =>
                 map (Special (fst (snd entry)) (snd (snd entry)))
                     (visible c (fst entry))) special_directories.

(** The body of the handler a document runs in. *)
Definition process (py_int : string -> option Z) (doc : document)
  : comp accumulators unit :=
  match doc with
  | Regular scenario_type f => process_regular py_int scenario_type f
  | Special scenario_type file_prefix f => process_special scenario_type file_prefix f
  end.

(** What a document adds to [all_dialogues] when it is processed on its own. *)
Definition contribution (py_int : string -> option Z) (doc : document)
  : list dialogue :=
  all_dialogues (try_except (process py_int doc) (mkAcc [] [])).

(** The entry a document offers to [event_names], following the
    specification: only in an event-bearing category, the display title from
    the document's title and the event id from its scenario id. *)
Definition event_entry (py_int : string -> option Z) (doc : document)
  : option (Z * string) :=
  match doc with
  | Regular scenario_type f =>
      if event_bearing scenario_type then
        match contents f with
        | Returned (JObj members) =>
            match dict_get "Title" members with
            | Some (JStr title_text) =>
                match py_int (first_field "-" (regular_scenario_id scenario_type f)) with
                | Some event_id =>
                    Some (event_id,
                          strip (str_replace "<br>" " " (first_field "|" title_text)))
                | None => None
                end
            | _ => None
            end
        | _ => None
        end
      else None
  | Special _ _ _ => None
  end.

(** The entries offered over a run, in discovery order. *)
Fixpoint offered (py_int : string -> option Z) (docs : list document)
  : list (Z * string) :=
  match docs with
  | [] => []
  | doc :: rest =>
      match event_entry py_int doc with
      | Some entry => entry :: offered py_int rest
      | None => offered py_int rest
      end
  end.

(** A document that raises is skipped whole: neither accumulator changes. *)
Definition skipped_when_raising (py_int : string -> option Z) (doc : document)
  : Prop :=
  forall acc e,
    fst (process py_int doc acc) = Raised e ->
    try_except (process py_int doc) acc = acc.

(** [int(text)] on a text of ASCII digits.  On any other text this gives
    [None]; [int] does the same when the text holds no digit.  It is used to
    run the loader on concrete corpora. *)
Definition digit_value (c : ascii) : option Z :=
  let n := nat_of_ascii c in
  if Nat.leb 48 n && Nat.leb n 57 then Some (Z.of_nat (n - 48)) else None.

Fixpoint digits_value (acc : Z) (s : string) : option Z :=
  match s with
  | EmptyString => Some acc
  | String c rest =>
      match digit_value c with
      | Some d => digits_value (10 * acc + d) rest
      | None => None
      end
  end.

Definition int_of_digits (s : string) : option Z :=
  match s with
  | EmptyString => None
  | _ => digits_value 0 s
  end.

(** An event document whose dialogue list breaks off at a branch that is not
    iterable. *)
Definition festival_file : json_file :=
  mkFile "scenario_event_7-1"
    (Returned
       (JObj [ ("Title", JStr "Fest<br>2024 | part 1");
               ("Dialogue",
                JArr [ JArr [JStr "A"; JStr "hi"];
                       JObj [("branch", JInt 5)];
                       JArr [JStr "A"; JStr "bye"] ]) ])).

(** An event document with a sound dialogue list and a scenario id that does
    not start with a number. *)
Definition extra_file : json_file :=
  mkFile "scenario_event_extra-1"
    (Returned
       (JObj [ ("Title", JStr "Extra");
               ("Dialogue", JArr [JArr [JStr "A"; JStr "hi"]]) ])).

Definition only_event (json_files : list json_file) : corpus :=
  fun d => match d with DirEvent => Some json_files | _ => None end.

(** The loader's result when the documents it meets are [docs], in that
    order. *)
Definition run_documents (py_int : string -> option Z) (docs : list document)
  : list dialogue * list (Z * string) :=
  let acc := fold_left (fun a doc => try_except (process py_int doc) a) docs
                       (mkAcc [] []) in
  (all_dialogues acc, event_names acc).

(** A file that is not valid JSON. *)
Definition broken_file : json_file :=
  mkFile "scenario_event_8-1" (Raised JSONDecodeError).

(** A second document of event 7, with another title. *)
Definition festival_sequel : json_file :=
  mkFile "scenario_event_7-2"
    (Returned
       (JObj [ ("Title", JStr "Fest again");
               ("Dialogue", JArr [JArr [JStr "B"; JStr "yo"]]) ])).

(** ** Build outputs *)

(** The value an object holds under [key]. *)
Definition json_field (key : string) (v : json) : option json :=
  match v with
  | JObj members => dict_get key members
  | _ => None
  end.

(** Two manifests that agree on every field but [timestamp]. *)
Definition same_but_timestamp (m1 m2 : manifest) : Prop :=
  version m1 = version m2
  /\ totalChunks m1 = totalChunks m2
  /\ manifest_chunks m1 = manifest_chunks m2
  /\ eventNames m1 = eventNames m2
  /\ totalCompressedSize m1 = totalCompressedSize m2.

(** Two runs on the same corpus, at clock readings [k1] and [k2], write the
    same chunk files and manifests that differ in [timestamp] only. *)
Definition rerun_identical (py_int : string -> option Z)
    (gzip_compress : Z -> string -> string) (c : corpus) (k1 k2 : clock) : Prop :=
  chunk_files (main py_int gzip_compress c k1)
  = chunk_files (main py_int gzip_compress c k2)
  /\ same_but_timestamp (manifest_file (main py_int gzip_compress c k1))
                        (manifest_file (main py_int gzip_compress c k2)).

(** A stand-in for [gzip.compress] in concrete runs: the data behind the
    header time. *)
Definition stamp_only (mtime : Z) (data : string) : string :=
  repr_int mtime +++ data.

(** A build shortly before midnight and one shortly after. *)
Definition evening : clock :=
  mkClock "2024-05-01" "2024-05-01T23:59:58.000001" (fun _ => 1714607998).

Definition next_morning : clock :=
  mkClock "2024-05-02" "2024-05-02T00:00:03.000001" (fun _ => 1714608003).

(** A second build within the same second as [evening]. *)
Definition evening_again : clock :=
  mkClock "2024-05-01" "2024-05-01T23:59:58.700001" (fun _ => 1714607998).

(** ** Frames for computations on the accumulators *)

(** The outcome and the records added do not depend on the accumulators the
    computation starts from. *)
Definition records_framed {A : Type} (c : comp accumulators A) : Prop :=
  forall acc,
    fst (c acc) = fst (c (mkAcc [] []))
    /\ all_dialogues (snd (c acc))
       = all_dialogues acc ++ all_dialogues (snd (c (mkAcc [] []))).

(** [event_names] is left as it was. *)
Definition names_preserved {A : Type} (c : comp accumulators A) : Prop :=
  forall acc, event_names (snd (c acc)) = event_names acc.

(** [if event_id not in event_names: event_names[event_id] = event_title],
    for an entry that may be missing. *)
Definition add_first_wins (entry : option (Z * string)) (names : list (Z * string))
  : list (Z * string) :=
  match entry with
  | Some (event_id, event_title) =>
      match names_get event_id names with
      | Some _ => names
      | None => names ++ [(event_id, event_title)]
      end
  | None => names
  end.

(** ** Greedy packing *)

(** The record that opens chunk [next] would not have fitted into [chunk]. *)
Definition closed_when_full (B : Z) (chunk next : list dialogue) : Prop :=
  match next with
  | d :: _ => chunk_size chunk + dialogue_size d > B
  | [] => False
  end.

(** Every chunk but the last was closed because the next record would not
    fit. *)
Definition tight (B : Z) (cs : list (list dialogue)) : Prop :=
  forall before chunk next after,
    cs = before ++ chunk :: next :: after -> closed_when_full B chunk next.

(** Seven copies of a record. *)
Definition seven_lines : list dialogue :=
  [line_a; line_b; line_a; line_b; line_a; line_b; line_a].

(** ** Shapes of dialogue entries *)

(** A value [for ... in] cannot iterate over. *)
Definition not_iterable (v : json) : Prop :=
  match v with
  | JNull | JBool _ | JInt _ | JFloat _ => True
  | _ => False
  end.

(** An entry the extractor has no case for: not a two-element list, and not
    a dict with a [branch] key. *)
Definition unrecognized (item : json) : Prop :=
  (forall a b, item <> JArr [a; b])
  /\ (forall members, item = JObj members -> dict_get "branch" members = None).

(** The record carries the context it was extracted in. *)
Definition in_context (scenario_type scenario_id : string) (title_value : json)
    (d : dialogue) : Prop :=
  scenarioType d = scenario_type
  /\ scenarioId d = scenario_id
  /\ title d = title_value.

(** A computation on [all_dialogues] adds only records that satisfy [P]. *)
Definition adds_only (P : dialogue -> Prop) {A : Type}
    (c : comp (list dialogue) A) : Prop :=
  Forall P (snd (c [])).

(** ** What a document hands to its records *)

Definition doc_type (doc : document) : string :=
  match doc with
  | Regular scenario_type _ => scenario_type
  | Special scenario_type _ _ => scenario_type
  end.

Definition doc_id (doc : document) : string :=
  match doc with
  | Regular scenario_type f => regular_scenario_id scenario_type f
  | Special _ file_prefix f => str_replace file_prefix "" (stem f)
  end.

(** [data.get('Title', '')] of the document's dict. *)
Definition doc_title (doc : document) : json :=
  match contents (file_of doc) with
  | Returned (JObj members) =>
      match dict_get "Title" members with
      | Some v => v
      | None => JStr ""
      end
  | _ => JStr ""
  end.

(** The prefix [load_all_dialogues] strips from the stem of a file of a
    regular type. *)
Definition regular_prefix (scenario_type : string) : string :=
  if String.eqb scenario_type "caulis" then "caulis_story_"
  else "scenario_" +++ scenario_type +++ "_".

(** The documents of the two event-bearing directories, in discovery order. *)
Definition event_documents (c : corpus) : list document :=
  map (Regular "event") (visible c DirEvent)
  ++ map (Regular "caulis") (visible c DirCaulis).

(** A card story whose [Dialogue] is not a list. *)
Definition odd_card_file : json_file :=
  mkFile "scenario_card_12"
    (Returned (JObj [("Title", JStr "Card"); ("Dialogue", JStr "soon")])).

(** ** Manifest arithmetic *)

(** [sum(l)] *)
Definition total_of (l : list Z) : Z := fold_right Z.add 0 l.

(** The entry the loop of [compress_and_save_chunks] makes for a chunk. *)
Definition entry_of (gzip_compress : Z -> string -> string) (total : nat)
    (k : clock) (item : nat * list dialogue) : chunk_entry :=
  mkEntry (chunk_filename (fst item)) (Z.of_nat (fst item))
          (len (chunk_bytes (fst item) total (snd item)))
          (len (gzip_compress (gzip_time k (fst item))
                  (chunk_bytes (fst item) total (snd item))))
          (Z.of_nat (List.length (snd item))).

(** ** Minification *)

(** The source file could be read and parsed. *)
Definition readable (input : outcome json) : bool :=
  match input with
  | Returned _ => true
  | Raised _ => false
  end.

(** A target directory holding an earlier copy of one file. *)
Definition earlier_target : tree :=
  write_text "public/scenario/main/scenario_main_002.json" "[]" (fun _ => None).

(** Two source files of the main story, the second one damaged. *)
Definition main_sources : list (string * outcome json) :=
  [ ("scenario_main_001.json",
     Returned (JObj [("Title", JStr "One"); ("Dialogue", JArr [])]));
    ("scenario_main_002.json", Raised JSONDecodeError) ].

(** An event document without a title, whose scenario id is not a number. *)
Definition untitled_file : json_file :=
  mkFile "scenario_event_extra-2"
    (Returned (JObj [("Dialogue", JArr [JArr [JStr "A"; JStr "hi"]])])).

(** ** Choice records and line records *)

(** The choice marker is reserved: no Line, whatever its speaker, yields the
    record that a choice yields. *)
Definition choice_distinguishable : Prop :=
  forall (speaker_value content_value label title_value : json)
         (scenario_type scenario_id : string) (all_dialogues : list dialogue),
    extract_dialogues_recursive [JArr [speaker_value; content_value]]
      scenario_type scenario_id title_value all_dialogues
    <> extract_dialogues_recursive
         [JObj [("branch", JArr [JArr [label; JArr []]])]]
         scenario_type scenario_id title_value all_dialogues.

(** ** The splitter of the specification, for a given way of measuring *)

(** The byte length of a record serialised on its own with the default
    separators of [json.dumps]. *)
Definition default_size (d : dialogue) : Z :=
  len (encode_utf8 (dumps ", " ": " (dialogue_json d))).

(** Greedy accumulation as the specification words it: [open_chunk] is the
    accumulating chunk and [running] its byte size; a record that would take
    the running size over [B] closes a non-empty chunk and opens the next. *)
Fixpoint greedy (size : dialogue -> Z) (B : Z) (open_chunk : list dialogue)
    (running : Z) (R : list dialogue) : list (list dialogue) :=
  match R with
  | [] => if truthy open_chunk then [open_chunk] else []
  | d :: rest =>
      if (running + size d >? B) && truthy open_chunk
      then open_chunk :: greedy size B [d] (size d) rest
      else greedy size B (open_chunk ++ [d]) (running + size d) rest
  end.

(** The chunk boundaries are those of the compact encoding of the chunk
    files. *)
Definition boundaries_by_compact_size (R : list dialogue) (B : Z) : Prop :=
  split_into_chunks R B = greedy compact_size B [] 0 R.

(** ** First-wins, on the list of offered entries *)

(** The entries whose id was not offered before, in order. *)
Fixpoint keep_first (seen : list Z) (offers : list (Z * string))
  : list (Z * string) :=
  match offers with
  | [] => []
  | (event_id, event_title) :: rest =>
      if existsb (fun k => Z.eqb k event_id) seen then keep_first seen rest
      else (event_id, event_title) :: keep_first (seen ++ [event_id]) rest
  end.

(** The document at the same place, with other contents. *)
Definition with_contents (doc : document) (r : outcome json) : document :=
  match doc with
  | Regular scenario_type f => Regular scenario_type (mkFile (stem f) r)
  | Special scenario_type file_prefix f =>
      Special scenario_type file_prefix (mkFile (stem f) r)
  end.

(** * Properties *)

(** ** Serialised sizes *)

Lemma length_append (a b : string) :
  String.length (a +++ b) = (String.length a + String.length b)%nat.
Proof. induction a as [|c a IH]; simpl; auto. Qed.

Lemma dumps_arr (item_sep key_sep : string) (items : list json) :
  dumps item_sep key_sep (JArr items)
  = "[" +++ join item_sep (map (dumps item_sep key_sep) items) +++ "]".
Proof. reflexivity. Qed.

Lemma dumps_obj (item_sep key_sep : string) (members : list (string * json)) :
  dumps item_sep key_sep (JObj members)
  = "{" +++ join item_sep
              (map (fun kv => quote (fst kv) +++ key_sep
                              +++ dumps item_sep key_sep (snd kv)) members)
        +++ "}".
Proof. reflexivity. Qed.

(** Widening the separator and each part can only lengthen the joined text. *)
Lemma join_length_le (sep1 sep2 : string) (l1 l2 : list string) :
  (String.length sep1 <= String.length sep2)%nat ->
  Forall2 (fun a b => (String.length a <= String.length b)%nat) l1 l2 ->
  (String.length (join sep1 l1) <= String.length (join sep2 l2))%nat.
Proof.
  intros Hsep H. induction H as [|a b l1 l2 Hab Hl IH]; simpl; [lia|].
  destruct Hl as [|a' b' l1' l2' Hab' Hl']; [exact Hab|].
  rewrite !length_append. lia.
Qed.

(** The compact encoding of a value is never longer than the default one. *)
Lemma dumps_compact_le (v : json) :
  (String.length (dumps_compact v) <= String.length (dumps_default v))%nat.
Proof.
  unfold dumps_compact, dumps_default.
  induction v as [ |b|n|r|s|items IH|members IH] using json_nested_ind;
    try (simpl; lia).
  - rewrite !dumps_arr, !length_append.
    apply Nat.add_le_mono_l, Nat.add_le_mono_r, join_length_le; [simpl; lia|].
    induction IH; simpl; constructor; auto.
  - rewrite !dumps_obj, !length_append.
    apply Nat.add_le_mono_l, Nat.add_le_mono_r, join_length_le; [simpl; lia|].
    induction IH as [|[k x] members Hx Hm IHm]; cbn [map]; constructor; auto.
    rewrite !length_append. cbn [fst snd String.length] in *. lia.
Qed.

Lemma dialogue_size_compact (d : dialogue) :
  dialogue_size d >= compact_size d + 9.
Proof.
  unfold dialogue_size, compact_size, len, encode_utf8, dialogue_json.
  pose proof (dumps_compact_le (speaker d)) as Hs.
  pose proof (dumps_compact_le (content d)) as Hc.
  pose proof (dumps_compact_le (title d)) as Ht.
  unfold dumps_compact, dumps_default in *.
  rewrite !dumps_obj. cbn [map join fst snd]. rewrite !length_append.
  cbn [String.length dumps]. lia.
Qed.

Lemma dialogue_size_default (d : dialogue) : dialogue_size d = default_size d.
Proof. reflexivity. Qed.

Lemma default_size_compact (d : dialogue) : default_size d >= compact_size d + 9.
Proof. rewrite <- dialogue_size_default. apply dialogue_size_compact. Qed.

Lemma default_size_strings (scenario_type scenario_id : string)
    (speaker_text content_text title_text : string) :
  default_size (mkDialogue scenario_type scenario_id
                  (JStr speaker_text) (JStr content_text) (JStr title_text))
  = compact_size (mkDialogue scenario_type scenario_id
                    (JStr speaker_text) (JStr content_text) (JStr title_text))
    + 9.
Proof.
  unfold default_size, compact_size, len, encode_utf8, dialogue_json,
    dumps_compact.
  rewrite !dumps_obj. cbn [map join fst snd speaker content title
                            scenarioType scenarioId].
  rewrite !length_append. cbn [String.length dumps]. lia.
Qed.

(** ** The chunker *)

Lemma dialogue_size_nonneg (d : dialogue) : 0 <= dialogue_size d.
Proof. unfold dialogue_size, len. lia. Qed.

Opaque dialogue_size.

Lemma chunk_size_nonneg (chunk : list dialogue) : 0 <= chunk_size chunk.
Proof.
  induction chunk as [|d chunk IH]; simpl; [lia|].
  pose proof (dialogue_size_nonneg d). lia.
Qed.

Lemma chunk_size_snoc (chunk : list dialogue) (d : dialogue) :
  chunk_size (chunk ++ [d]) = chunk_size chunk + dialogue_size d.
Proof. induction chunk as [|x chunk IH]; simpl; lia. Qed.

(** The closed chunks are only ever extended at the end. *)
Lemma split_finish_frame (B : Z) (ds : list dialogue) (st : split_state) :
  split_finish (fold_left (split_step B) ds st)
  = chunks st
    ++ split_finish (fold_left (split_step B) ds
                       (mkSplit [] (current_chunk st) (current_size st))).
Proof.
  revert st. induction ds as [|d ds IH]; intros [cs cur sz].
  - unfold split_finish; simpl. destruct (truthy cur); simpl; auto using app_nil_r.
  - simpl fold_left. unfold split_step at 2 4; simpl.
    destruct ((sz + dialogue_size d >? B) && truthy cur); simpl.
    + rewrite IH. simpl.
      rewrite (IH (mkSplit [cur] _ _)). simpl. now rewrite <- app_assoc.
    + now rewrite IH.
Qed.

Lemma concat_split_finish (B : Z) (ds : list dialogue) (st : split_state) :
  List.concat (split_finish (fold_left (split_step B) ds st))
  = List.concat (chunks st) ++ current_chunk st ++ ds.
Proof.
  revert st. induction ds as [|d ds IH]; intros [cs cur sz].
  - unfold split_finish; simpl. destruct cur; simpl.
    + now rewrite app_nil_r.
    + rewrite concat_app. simpl. now rewrite !app_nil_r.
  - simpl fold_left. rewrite IH. unfold split_step; simpl.
    destruct ((sz + dialogue_size d >? B) && truthy cur); simpl.
    + rewrite concat_app. simpl. now rewrite app_nil_r, <- app_assoc.
    + now rewrite <- app_assoc.
Qed.

Lemma split_step_inv (B : Z) (st : split_state) (d : dialogue) :
  split_inv B st -> split_inv B (split_step B st d).
Proof.
  destruct st as [cs cur sz]. unfold split_inv, split_step; simpl.
  intros (Hsz & Hcs & Hcur & Hne). subst sz.
  assert (Hone : within_budget B [d]).
  { unfold within_budget; simpl.
    destruct (Z_le_gt_dec (dialogue_size d) B); [left; lia | right; eauto]. }
  destruct (chunk_size cur + dialogue_size d >? B) eqn:Hgt; simpl.
  - destruct cur as [|x cur]; simpl.
    + repeat split; auto.
    + repeat split; auto.
      * apply Forall_app; split; auto.
        destruct Hcur as [Hcur | Hcur]; [discriminate | auto].
      * apply Forall_app; split; auto. constructor; [discriminate | constructor].
  - rewrite chunk_size_snoc. repeat split; auto.
    right. left. rewrite chunk_size_snoc. lia.
Qed.

Lemma split_fold_inv (B : Z) (ds : list dialogue) (st : split_state) :
  split_inv B st -> split_inv B (fold_left (split_step B) ds st).
Proof.
  revert st. induction ds as [|d ds IH]; intros st H; simpl; auto.
  apply IH, split_step_inv, H.
Qed.

Lemma split_inv_init (B : Z) : split_inv B (mkSplit [] [] 0).
Proof. unfold split_inv; simpl. repeat split; auto. Qed.

Lemma split_finish_inv (B : Z) (st : split_state) :
  split_inv B st ->
  Forall (within_budget B) (split_finish st)
  /\ Forall (fun c => c <> []) (split_finish st).
Proof.
  destruct st as [cs cur sz]. unfold split_inv, split_finish; simpl.
  intros (_ & Hcs & Hcur & Hne).
  destruct cur as [|x cur]; simpl; [auto|].
  split; apply Forall_app; split; auto.
  - destruct Hcur as [Hcur | Hcur]; [discriminate | auto].
  - constructor; [discriminate | constructor].
Qed.

(** An open chunk that is already over budget is closed by whatever comes
    next, and the rest is split as if from the start. *)
Lemma split_after_full (B : Z) (ds : list dialogue) (st : split_state) :
  current_size st > B -> current_chunk st <> [] ->
  split_finish (fold_left (split_step B) ds st)
  = (chunks st ++ [current_chunk st]) ++ split_into_chunks ds B.
Proof.
  destruct st as [cs cur sz]; simpl. intros Hsz Hcur.
  destruct ds as [|d ds].
  - unfold split_into_chunks, split_finish; simpl.
    destruct cur; [congruence | simpl; now rewrite app_nil_r].
  - unfold split_into_chunks. simpl fold_left. unfold split_step at 2 4; simpl.
    pose proof (dialogue_size_nonneg d) as Hd.
    replace (sz + dialogue_size d >? B) with true
      by (symmetry; apply Z.gtb_lt; lia).
    destruct cur as [|x cur]; [congruence|].
    rewrite andb_false_r. simpl.
    rewrite split_finish_frame. simpl. reflexivity.
Qed.

(** An oversized record cuts the input in two independent runs. *)
Lemma split_around_oversized (B : Z) (R1 R2 : list dialogue) (d : dialogue) :
  dialogue_size d > B ->
  split_into_chunks (R1 ++ d :: R2) B
  = split_into_chunks R1 B ++ [d] :: split_into_chunks R2 B.
Proof.
  intros Hd. unfold split_into_chunks at 1. rewrite fold_left_app. simpl fold_left.
  pose proof (split_fold_inv B R1 _ (split_inv_init B)) as Hinv.
  unfold split_into_chunks at 1.
  destruct (fold_left (split_step B) R1 (mkSplit [] [] 0)) as [cs cur sz].
  destruct Hinv as (Hsz & _). simpl in Hsz.
  pose proof (chunk_size_nonneg cur) as Hnn.
  unfold split_step at 2; simpl.
  replace (sz + dialogue_size d >? B) with true
    by (symmetry; apply Z.gtb_lt; lia).
  unfold split_finish at 2; simpl.
  destruct cur as [|x cur]; simpl in *;
    (rewrite split_after_full; simpl; [ | lia | discriminate ]);
    now rewrite <- ?app_assoc.
Qed.

Lemma len_append (a b : string) : len (a +++ b) = len a + len b.
Proof. unfold len. rewrite length_append. lia. Qed.

Lemma chunk_size_cons (d : dialogue) (chunk : list dialogue) :
  chunk_size (d :: chunk) = dialogue_size d + chunk_size chunk.
Proof. reflexivity. Qed.

Lemma compact_total_cons (d : dialogue) (chunk : list dialogue) :
  compact_total (d :: chunk) = compact_size d + compact_total chunk.
Proof. reflexivity. Qed.

Lemma length_cons_Z {A : Type} (x : A) (l : list A) :
  Z.of_nat (List.length (x :: l)) = Z.of_nat (List.length l) + 1.
Proof. cbn [List.length]. lia. Qed.

Lemma compact_total_le (chunk : list dialogue) :
  compact_total chunk + 9 * Z.of_nat (List.length chunk) <= chunk_size chunk.
Proof.
  induction chunk as [|d chunk IH]; [reflexivity|].
  rewrite chunk_size_cons, compact_total_cons, length_cons_Z.
  pose proof (dialogue_size_compact d). lia.
Qed.

Lemma join_cons2 (sep p q : string) (r : list string) :
  join sep (p :: q :: r) = p +++ sep +++ join sep (q :: r).
Proof. reflexivity. Qed.

(** The records of a chunk in the compact encoding, joined by commas. *)
Lemma len_join_records (d : dialogue) (chunk : list dialogue) :
  len (join "," (map (dumps "," ":") (map dialogue_json (d :: chunk))))
  = compact_total (d :: chunk) + Z.of_nat (List.length chunk).
Proof.
  revert d. induction chunk as [|d' chunk IH]; intros d.
  - rewrite compact_total_cons. cbn [map join compact_total fold_right List.length].
    unfold compact_size, encode_utf8, dumps_compact. lia.
  - rewrite compact_total_cons, length_cons_Z, !map_cons, join_cons2, !len_append.
    rewrite <- !map_cons, IH.
    unfold compact_size, encode_utf8, dumps_compact.
    change (len ",") with 1. lia.
Qed.

(** The size of the file content for a chunk, before compression. *)
Lemma chunk_bytes_length (idx total : nat) (d : dialogue) (chunk : list dialogue) :
  len (chunk_bytes idx total (d :: chunk))
  = 45 + compact_total (d :: chunk) + Z.of_nat (List.length chunk)
    + len (repr_int (Z.of_nat idx)) + len (repr_int (Z.of_nat total)).
Proof.
  unfold chunk_bytes, chunk_data, encode_utf8, dumps_compact.
  pose proof (len_join_records d chunk) as Hj.
  remember (map dialogue_json (d :: chunk)) as records eqn:Hr.
  rewrite dumps_obj. cbn [map join fst snd]. rewrite dumps_arr.
  rewrite !len_append, Hj.
  cbn [dumps].
  change (len "{") with 1. change (len "}") with 1. change (len "[") with 1.
  change (len "]") with 1. change (len ",") with 1. change (len ":") with 1.
  change (len (quote "dialogues")) with 11.
  change (len (quote "chunkIndex")) with 12.
  change (len (quote "totalChunks")) with 13.
  lia.
Qed.

(** A chunk within budget is written in at most [B] bytes plus the header. *)
Lemma chunk_bytes_bound (idx total : nat) (chunk : list dialogue) (B : Z) :
  chunk <> [] -> chunk_size chunk <= B ->
  len (chunk_bytes idx total chunk)
  <= B + 36 + len (repr_int (Z.of_nat idx)) + len (repr_int (Z.of_nat total)).
Proof.
  destruct chunk as [|d chunk]; [congruence|]. intros _ H.
  rewrite chunk_bytes_length.
  pose proof (compact_total_le (d :: chunk)) as Hc.
  rewrite length_cons_Z in Hc. lia.
Qed.

(** C1: whatever the records and the budget, the chunks of
    [split_into_chunks], concatenated in order, are the input sequence. *)
Theorem split_into_chunks_lossless (R : list dialogue) (B : Z) :
  List.concat (split_into_chunks R B) = R.
Proof.
  unfold split_into_chunks. rewrite concat_split_finish. reflexivity.
Qed.

(** C2, as stated, at two records of 92 bytes each and a budget of 184: both
    go to one chunk, and the file written for it has 214 bytes. *)
Lemma written_size_bound_fails : ~ written_size_bound [line_a; line_b] 184.
Proof.
  unfold written_size_bound. intros H.
  assert (Hs : split_into_chunks [line_a; line_b] 184 = [[line_a; line_b]])
    by (vm_compute; reflexivity).
  rewrite Hs in H. inversion H as [|ic l [Hle | (d & Hd & _)] _]; subst.
  - vm_compute in Hle. apply Hle. reflexivity.
  - discriminate Hd.
Qed.

Lemma Forall_enumerate {A : Type} (P : A -> Prop) (l : list A) :
  Forall P l -> Forall (fun ic => P (snd ic)) (enumerate l).
Proof.
  unfold enumerate. intros H. generalize (seq O (List.length l)).
  induction H as [|x l Hx Hl IH]; intros [|i idxs]; simpl; constructor; auto.
Qed.

(** C2 (amended): in every chunk, the sizes the splitter measured for its
    records add up to at most [B], and the chunk is written in at most [B]
    bytes plus a header of 36 bytes and the digits of its index and of the
    chunk count; unless the chunk is a single record whose measured size
    exceeds [B]. *)
Theorem split_into_chunks_within_budget (R : list dialogue) (B : Z) :
  let cs := split_into_chunks R B in
  Forall (fun ic =>
            (chunk_size (snd ic) <= B
             /\ len (chunk_bytes (fst ic) (List.length cs) (snd ic))
                <= B + 36 + len (repr_int (Z.of_nat (fst ic)))
                   + len (repr_int (Z.of_nat (List.length cs))))
            \/ exists d, snd ic = [d] /\ dialogue_size d > B)
         (enumerate cs).
Proof.
  cbn zeta. unfold split_into_chunks.
  destruct (split_finish_inv B _ (split_fold_inv B R _ (split_inv_init B)))
    as [Hin Hne].
  assert (H : Forall (fun c => within_budget B c /\ c <> [])
                     (split_finish (fold_left (split_step B) R (mkSplit [] [] 0)))).
  { apply Forall_forall. intros c Hc. rewrite Forall_forall in Hin, Hne. auto. }
  apply Forall_enumerate in H. revert H. apply Forall_impl.
  intros [idx chunk] [[Hle | Hone] Hnonempty]; cbn [fst snd] in *; [left|right; exact Hone].
  split; [exact Hle|]. now apply chunk_bytes_bound.
Qed.

(** C6: a record whose size exceeds the budget is the only record of its
    chunk; the records before it and after it are split as they would be on
    their own. *)
Theorem oversized_record_alone (R1 R2 : list dialogue) (d : dialogue) (B : Z) :
  dialogue_size d > B ->
  split_into_chunks (R1 ++ d :: R2) B
  = split_into_chunks R1 B ++ [d] :: split_into_chunks R2 B
  /\ chunk_size [d] > B.
Proof.
  intros Hd. split; [now apply split_around_oversized|].
  simpl. lia.
Qed.

Lemma oversized_record_alone_witness :
  dialogue_size line_b > 50
  /\ (split_into_chunks ([line_a] ++ line_b :: [line_a]) 50
      = split_into_chunks [line_a] 50 ++ [line_b] :: split_into_chunks [line_a] 50
      /\ chunk_size [line_b] > 50).
Proof.
  split; [vm_compute; reflexivity|].
  apply (oversized_record_alone [line_a] [line_a] line_b 50).
  vm_compute; reflexivity.
Defined.

(** The same for a record that is too large in the compact encoding. *)
Lemma oversized_compact_record_alone (R1 R2 : list dialogue) (d : dialogue) (B : Z) :
  compact_size d > B ->
  split_into_chunks (R1 ++ d :: R2) B
  = split_into_chunks R1 B ++ [d] :: split_into_chunks R2 B.
Proof.
  intros Hd. apply split_around_oversized.
  pose proof (dialogue_size_compact d). lia.
Qed.

(** No chunk is empty. *)
Lemma split_into_chunks_nonempty (R : list dialogue) (B : Z) :
  Forall (fun c => c <> []) (split_into_chunks R B).
Proof.
  unfold split_into_chunks.
  apply (split_finish_inv B), split_fold_inv, split_inv_init.
Qed.

(** ** The extractor *)

Lemma extract_rec_S (depth : nat) (dialogue_list : list json)
    (scenario_type scenario_id : string) (title : json) :
  extract_rec (S depth) dialogue_list scenario_type scenario_id title
  = for_each dialogue_list
      (item_body (fun nested => extract_rec depth nested scenario_type scenario_id title)
                 scenario_type scenario_id title).
Proof. reflexivity. Qed.

Lemma bind_ext {S A B : Type} (c : comp S A) (k1 k2 : A -> comp S B) (s : S) :
  (forall a s', k1 a s' = k2 a s') -> bind c k1 s = bind c k2 s.
Proof. intros H. unfold bind. destruct (c s) as [[a|e] s']; auto. Qed.

Lemma for_each_ext {S A : Type} (l : list A) (f g : A -> comp S unit) :
  (forall x s, In x l -> f x s = g x s) ->
  forall s, for_each l f s = for_each l g s.
Proof.
  induction l as [|x l IH]; intros H s; simpl; [reflexivity|].
  unfold bind. rewrite (H x s) by (now left).
  destruct (g x s) as [[[]|e] s']; auto.
  apply IH. intros y s'' Hy. apply H. now right.
Qed.

Lemma list_depth_cons (x : json) (l : list json) :
  list_depth (x :: l) = Nat.max (json_depth x) (list_depth l).
Proof. reflexivity. Qed.

Lemma json_depth_in (x : json) (l : list json) :
  In x l -> (json_depth x <= list_depth l)%nat.
Proof.
  induction l as [|y l IH]; [intros []|].
  rewrite list_depth_cons. intros [-> | H]; [lia|]. specialize (IH H). lia.
Qed.

Lemma json_depth_arr (items : list json) :
  json_depth (JArr items) = S (list_depth items).
Proof. reflexivity. Qed.

Lemma json_depth_dict_get (key : string) (members : list (string * json)) (v : json) :
  dict_get key members = Some v ->
  (json_depth v < json_depth (JObj members))%nat.
Proof.
  change (json_depth (JObj members))
    with (S (fold_right (fun kv m => Nat.max (json_depth (snd kv)) m) O members)).
  induction members as [|[k x] members IH]; cbn [dict_get fold_right snd];
    [discriminate|].
  destruct (String.eqb k key).
  - intros [= ->]. lia.
  - intros H. specialize (IH H). lia.
Qed.

(** The nested lists an option hands to the recursive call lie deeper in the
    JSON than the option. *)
Lemma option_body_ext (r1 r2 : list json -> comp (list dialogue) unit)
    (st sid : string) (title : json) (o : json) (s : list dialogue) :
  (forall nested s', (S (list_depth nested) < json_depth o)%nat ->
                     r1 nested s' = r2 nested s') ->
  option_body r1 st sid title o s = option_body r2 st sid title o s.
Proof.
  intros H. destruct o as [ | | | | |items|]; try reflexivity.
  destruct items as [|c [|bd rest]]; try reflexivity.
  unfold option_body. apply bind_ext. intros _ s'.
  destruct bd as [ | | | | |nested|]; try reflexivity.
  apply H. rewrite !json_depth_arr, !list_depth_cons, json_depth_arr. lia.
Qed.

Lemma item_body_ext (r1 r2 : list json -> comp (list dialogue) unit)
    (st sid : string) (title : json) (item : json) (s : list dialogue) :
  (forall nested s', (list_depth nested < json_depth item)%nat ->
                     r1 nested s' = r2 nested s') ->
  item_body r1 st sid title item s = item_body r2 st sid title item s.
Proof.
  intros H. destruct item as [ | | | | |items|members]; try reflexivity.
  unfold item_body.
  destruct (dict_get "branch" members) as [branch|] eqn:Hb; [|reflexivity].
  apply json_depth_dict_get in Hb.
  destruct branch as [ | | | | |opts|ms]; try reflexivity.
  - unfold py_iter, bind, ret. apply for_each_ext.
    intros o s' Ho. apply in_map_iff in Ho as (c & <- & _). reflexivity.
  - unfold py_iter, bind, ret. apply for_each_ext.
    intros o s' Ho. apply option_body_ext. intros nested s'' Hn. apply H.
    apply json_depth_in in Ho. rewrite json_depth_arr in Hb. lia.
  - unfold py_iter, bind, ret. apply for_each_ext.
    intros o s' Ho. apply in_map_iff in Ho as (kv & <- & _). reflexivity.
Qed.

(** Any two depths beyond the nesting of the list give the same run. *)
Lemma extract_rec_stable (d1 d2 : nat) (dialogue_list : list json)
    (st sid : string) (title : json) (s : list dialogue) :
  (list_depth dialogue_list < d1)%nat -> (list_depth dialogue_list < d2)%nat ->
  extract_rec d1 dialogue_list st sid title s
  = extract_rec d2 dialogue_list st sid title s.
Proof.
  revert d2 dialogue_list s.
  induction d1 as [|d1 IH]; intros d2 dl s H1 H2; [lia|].
  destruct d2 as [|d2]; [lia|].
  rewrite !extract_rec_S. apply for_each_ext. intros item s' Hin.
  apply item_body_ext. intros nested s'' Hn.
  apply json_depth_in in Hin. apply IH; lia.
Qed.

(** The recursion of the script, on [extract_dialogues_recursive] itself. *)
Lemma extract_dialogues_recursive_unfold (dialogue_list : list json)
    (st sid : string) (title : json) (s : list dialogue) :
  extract_dialogues_recursive dialogue_list st sid title s
  = for_each dialogue_list
      (item_body (fun nested => extract_dialogues_recursive nested st sid title)
                 st sid title) s.
Proof.
  unfold extract_dialogues_recursive at 1. rewrite extract_rec_S.
  apply for_each_ext. intros item s' Hin.
  apply item_body_ext. intros nested s'' Hn.
  apply json_depth_in in Hin.
  unfold extract_dialogues_recursive. apply extract_rec_stable; lia.
Qed.


(** *** How a call can end *)

Lemma for_each_outcome {S A : Type} (Q : outcome unit -> Prop) (l : list A)
    (f : A -> comp S unit) :
  Q (Returned tt) ->
  (forall x s, In x l -> Q (fst (f x s))) ->
  forall s, Q (fst (for_each l f s)).
Proof.
  intros Hret. induction l as [|x l IH]; intros H s; simpl; [exact Hret|].
  unfold bind. pose proof (H x s (or_introl eq_refl)) as Hx.
  destruct (f x s) as [[[]|e] s']; simpl in *; [|exact Hx].
  apply IH. intros y s'' Hy. apply H. now right.
Qed.

(** The only exception the extractor raises is the [TypeError] of a
    [branch] value that cannot be iterated; the stack never runs out. *)
Lemma extract_rec_outcome (depth : nat) (dialogue_list : list json)
    (st sid : string) (title : json) (s : list dialogue) :
  (list_depth dialogue_list < depth)%nat ->
  fst (extract_rec depth dialogue_list st sid title s) = Returned tt
  \/ fst (extract_rec depth dialogue_list st sid title s) = Raised TypeError.
Proof.
  revert dialogue_list s. induction depth as [|depth IH]; intros dl s Hd; [lia|].
  rewrite extract_rec_S.
  apply (for_each_outcome (fun r => r = Returned tt \/ r = Raised TypeError));
    [now left|].
  intros item s' Hin. apply json_depth_in in Hin.
  destruct item as [ | | | | |[|a [|b [|c rest]]]|members];
    try (left; reflexivity).
  unfold item_body.
  destruct (dict_get "branch" members) as [branch|] eqn:Hb; [|now left].
  apply json_depth_dict_get in Hb.
  destruct branch as [ | | | | |opts|ms]; try (right; reflexivity);
    unfold py_iter, bind, ret;
    apply (for_each_outcome (fun r => r = Returned tt \/ r = Raised TypeError));
    try (now left).
  - intros o s'' Ho. apply in_map_iff in Ho as (c & <- & _). now left.
  - intros o s'' Ho. apply json_depth_in in Ho. rewrite json_depth_arr in Hb.
    destruct o as [ | | | | |[|c [|bd rest]]|]; try (left; reflexivity).
    unfold option_body, bind, append.
    destruct bd as [ | | | | |nested|]; try (left; reflexivity).
    apply IH. rewrite !json_depth_arr, !list_depth_cons, json_depth_arr in Ho. lia.
  - intros o s'' Ho. apply in_map_iff in Ho as (kv & <- & _). now left.
Qed.

Lemma extract_outcome (dialogue_list : list json) (st sid : string) (title : json)
    (s : list dialogue) :
  fst (extract_dialogues_recursive dialogue_list st sid title s) = Returned tt
  \/ fst (extract_dialogues_recursive dialogue_list st sid title s) = Raised TypeError.
Proof. apply extract_rec_outcome. lia. Qed.

(** *** The extractor only appends *)

Lemma appends_only_ret {A : Type} (a : A) : appends_only (ret a).
Proof. intros s. unfold ret; simpl. now rewrite app_nil_r. Qed.

Lemma appends_only_raise {A : Type} (e : exn) : appends_only (@raise _ A e).
Proof. intros s. unfold raise; simpl. now rewrite app_nil_r. Qed.

Lemma appends_only_append (d : dialogue) : appends_only (append d).
Proof. intros s. reflexivity. Qed.

Lemma appends_only_bind {A B : Type} (c : comp (list dialogue) A)
    (k : A -> comp (list dialogue) B) :
  appends_only c -> (forall a, appends_only (k a)) -> appends_only (bind c k).
Proof.
  intros Hc Hk s. unfold bind. rewrite (Hc s).
  destruct (c []) as [[a|e] s1]; simpl.
  - rewrite (Hk a (s ++ s1)), (Hk a s1). simpl. now rewrite app_assoc.
  - reflexivity.
Qed.

Lemma appends_only_for_each {A : Type} (l : list A)
    (f : A -> comp (list dialogue) unit) :
  (forall x, appends_only (f x)) -> appends_only (for_each l f).
Proof.
  intros H. induction l as [|x l IH]; simpl.
  - apply appends_only_ret.
  - apply appends_only_bind; auto.
Qed.

Lemma appends_only_py_iter (v : json) : appends_only (py_iter v).
Proof.
  destruct v; simpl; auto using appends_only_ret, appends_only_raise.
Qed.

Lemma appends_only_item_body (recur : list json -> comp (list dialogue) unit)
    (st sid : string) (title : json) (item : json) :
  (forall nested, appends_only (recur nested)) ->
  appends_only (item_body recur st sid title item).
Proof.
  intros H. unfold item_body.
  destruct item as [ | | | | |[|a [|b [|c rest]]]|members];
    auto using appends_only_ret, appends_only_append.
  destruct (dict_get "branch" members) as [branch|]; [|apply appends_only_ret].
  apply appends_only_bind; [apply appends_only_py_iter|].
  intros options. apply appends_only_for_each. intros o. unfold option_body.
  destruct o as [ | | | | |[|c [|bd rest]]|]; auto using appends_only_ret.
  apply appends_only_bind; [apply appends_only_append|]. intros _.
  destruct bd; auto using appends_only_ret.
Qed.

Lemma appends_only_extract_rec (depth : nat) (dialogue_list : list json)
    (st sid : string) (title : json) :
  appends_only (extract_rec depth dialogue_list st sid title).
Proof.
  revert dialogue_list. induction depth as [|depth IH]; intros dl.
  - apply appends_only_raise.
  - rewrite extract_rec_S. apply appends_only_for_each. intros item.
    apply appends_only_item_body. intros nested. apply IH.
Qed.

Lemma appends_only_extract (dialogue_list : list json)
    (st sid : string) (title : json) :
  appends_only (extract_dialogues_recursive dialogue_list st sid title).
Proof. apply appends_only_extract_rec. Qed.

(** *** Flattening *)

Lemma for_each_flat_map {A : Type} (l : list A)
    (f : A -> comp (list dialogue) unit) (g : A -> list dialogue) :
  Forall (fun x => forall s, f x s = (Returned tt, s ++ g x)) l ->
  forall s, for_each l f s = (Returned tt, s ++ flat_map g l).
Proof.
  induction 1 as [|x l Hx Hl IH]; intros s; simpl.
  - unfold ret. now rewrite app_nil_r.
  - unfold bind. rewrite Hx, IH. now rewrite app_assoc.
Qed.

Lemma for_each_map {S A B : Type} (h : A -> B) (l : list A)
    (f : B -> comp S unit) (s : S) :
  for_each (map h l) f s = for_each l (fun x => f (h x)) s.
Proof.
  revert s. induction l as [|x l IH]; intros s; simpl; [reflexivity|].
  unfold bind. destruct (f (h x) s) as [[[]|e] s']; auto.
Qed.

(** Running the extractor over the JSON of a list of nodes, given that each
    node alone behaves as [flatten] says. *)
Lemma extract_nodes (st sid : string) (title : json) (ns : list node) :
  Forall (fun n => forall s,
            item_body (fun nested => extract_dialogues_recursive nested st sid title)
                      st sid title (node_json n) s
            = (Returned tt, s ++ flatten st sid title n)) ns ->
  forall s,
    extract_dialogues_recursive (map node_json ns) st sid title s
    = (Returned tt, s ++ flat_map (flatten st sid title) ns).
Proof.
  intros H s. rewrite extract_dialogues_recursive_unfold, for_each_map.
  now apply for_each_flat_map.
Qed.

Lemma item_body_node (st sid : string) (title : json) (n : node) :
  forall s,
    item_body (fun nested => extract_dialogues_recursive nested st sid title)
              st sid title (node_json n) s
    = (Returned tt, s ++ flatten st sid title n).
Proof.
  induction n as [speaker content | options IH] using node_nested_ind; intros s.
  - reflexivity.
  - cbn [node_json item_body dict_get flatten]. rewrite String.eqb_refl.
    cbn [py_iter]. unfold bind at 1, ret.
    rewrite for_each_map. apply for_each_flat_map.
    induction IH as [|o options Ho _ IHo]; constructor; auto.
    intros s'. cbn [option_body]. unfold bind, append.
    rewrite (extract_nodes st sid title (snd o) Ho).
    now rewrite <- app_assoc.
Qed.

Lemma extract_single_line (speaker_value content_value title_value : json)
    (st sid : string) (s0 : list dialogue) :
  extract_dialogues_recursive [JArr [speaker_value; content_value]] st sid
    title_value s0
  = (Returned tt, s0 ++ [mkDialogue st sid speaker_value content_value title_value]).
Proof. reflexivity. Qed.

Lemma extract_single_choice (label title_value : json) (st sid : string)
    (s0 : list dialogue) :
  extract_dialogues_recursive [JObj [("branch", JArr [JArr [label; JArr []]])]]
    st sid title_value s0
  = (Returned tt, s0 ++ [mkDialogue st sid (JStr choice_marker) label title_value]).
Proof.
  change [JObj [("branch", JArr [JArr [label; JArr []]])]]
    with (map node_json [Branch [(label, [])]]).
  rewrite extract_nodes by (apply Forall_forall; intros n _; apply item_body_node).
  reflexivity.
Qed.

(** C3, as stated: a Line whose speaker is the marker yields the very record
    of a choice with the same text, so the marker is not distinct from every
    speaker a document can hold. *)
Lemma choice_marker_not_reserved : ~ choice_distinguishable.
Proof.
  intros H.
  apply (H (JStr choice_marker) (JStr "go left") (JStr "go left") (JStr "")
           "main" "001" []).
  now rewrite extract_single_line, extract_single_choice.
Qed.

(** C3 (amended): on a dialogue list made of Line and Branch nodes the
    extractor returns normally and appends the depth-first, left-to-right
    flattening: one record per Line with its speaker and content as they are,
    and per Branch, option by option, the choice record (speaker the marker,
    content the label) followed at once by the records of that option's
    nodes.  The marker is the literal of line 41; a Line yields the record of
    a choice exactly when its speaker is that literal and its content the
    label. *)
Theorem extract_is_depth_first_flatten (scenario_type scenario_id : string)
    (title : json) (nodes : list node) (all_dialogues : list dialogue) :
  extract_dialogues_recursive (map node_json nodes) scenario_type scenario_id
    title all_dialogues
  = (Returned tt,
     all_dialogues ++ flat_map (flatten scenario_type scenario_id title) nodes)
  /\ choice_marker = "選択肢"
  /\ forall speaker_value content_value label,
       extract_dialogues_recursive
         [node_json (Line speaker_value content_value)] scenario_type
         scenario_id title all_dialogues
       = extract_dialogues_recursive
           [node_json (Branch [(label, [])])] scenario_type scenario_id title
           all_dialogues
       <-> speaker_value = JStr choice_marker /\ content_value = label.
Proof.
  split; [|split].
  - apply extract_nodes. apply Forall_forall. intros n _. apply item_body_node.
  - reflexivity.
  - intros speaker_value content_value label. cbn [node_json map].
    rewrite extract_single_line, extract_single_choice. split.
    + intros [= H]. apply app_inv_head in H. injection H as -> ->. auto.
    + intros [-> ->]. reflexivity.
Qed.

(** The branch-ordering example of the specification. *)
Example branch_ordering :
  let record speaker content :=
    mkDialogue "main" "001" (JStr speaker) (JStr content) (JStr "") in
  extract_dialogues_recursive
    [ JArr [JStr "A"; JStr "hi"];
      JObj [ ("branch",
              JArr [ JArr [JStr "go left"; JArr [JArr [JStr "B"; JStr "left!"]]];
                     JArr [JStr "go right"; JArr [JArr [JStr "B"; JStr "right!"]]] ]) ] ]
    "main" "001" (JStr "") []
  = (Returned tt,
     [ record "A" "hi";
       record choice_marker "go left"; record "B" "left!";
       record choice_marker "go right"; record "B" "right!" ]).
Proof. reflexivity. Qed.

(** Shapes that are neither a pair nor a dict with a [branch] key are passed
    over. *)
Lemma item_body_other (recur : list json -> comp (list dialogue) unit)
    (st sid : string) (title : json) (item : json) (s : list dialogue) :
  (forall a b, item <> JArr [a; b]) ->
  (forall members, item = JObj members -> dict_get "branch" members = None) ->
  item_body recur st sid title item s = (Returned tt, s).
Proof.
  intros Hpair Hdict.
  destruct item as [ | | | | |[|a [|b [|c rest]]]|members]; try reflexivity.
  - now destruct (Hpair a b).
  - unfold item_body. now rewrite (Hdict members eq_refl).
Qed.

(** ** The loader *)

Section LoaderFacts.

Variable py_int : string -> option Z.

Lemma fold_left_map {A B C : Type} (f : A -> C -> A) (g : B -> C) (l : list B) (a : A) :
  fold_left f (map g l) a = fold_left (fun x y => f x (g y)) l a.
Proof. revert a. induction l as [|y l IH]; intros a; simpl; auto. Qed.

Lemma scan_fold (c : corpus) (d : directory)
    (body : json_file -> comp accumulators unit) (acc : accumulators) :
  scan c d body acc
  = fold_left (fun a f => try_except (body f) a)
      (match c d with Some json_files => json_files | None => [] end) acc.
Proof. unfold scan, each_file. destruct (c d); reflexivity. Qed.

(** The loader is one pass over the documents in discovery order, each in a
    handler of its own. *)
Lemma load_all_dialogues_fold (c : corpus) :
  load_all_dialogues py_int c
  = let acc := fold_left (fun a doc => try_except (process py_int doc) a)
                         (discovery c) (mkAcc [] []) in
    (all_dialogues acc, event_names acc).
Proof.
  unfold load_all_dialogues, load_special, load_ep, load_regular, discovery,
    types, special_directories.
  cbn [flat_map fold_left fst snd regular_directory String.eqb Ascii.eqb Bool.eqb].
  rewrite !fold_left_app, !fold_left_map. cbn [fold_left process].
  rewrite !scan_fold. unfold visible.
  destruct (c DirEpSpecial); reflexivity.
Qed.


(** *** Records: every document adds its own, whatever came before *)

Lemma framed_pure {A : Type} (c : comp accumulators A) (r : outcome A) :
  (forall acc, c acc = (r, acc)) -> records_framed c.
Proof. intros H acc. rewrite !H. simpl. now rewrite app_nil_r. Qed.

Lemma framed_bind {A B : Type} (c : comp accumulators A)
    (k : A -> comp accumulators B) :
  records_framed c -> (forall a, records_framed (k a)) -> records_framed (bind c k).
Proof.
  intros Hc Hk acc. unfold bind.
  destruct (Hc acc) as [Hr Hd].
  destruct (c acc) as [r s1], (c (mkAcc [] [])) as [r0 s0]. simpl in *. subst r0.
  destruct r as [a|e]; simpl; [|auto].
  destruct (Hk a s1) as [Hr1 Hd1], (Hk a s0) as [Hr0 Hd0].
  split; [congruence|]. rewrite Hd1, Hd0, Hd. now rewrite app_assoc.
Qed.

Lemma framed_py_in (key : string) (data : json) :
  records_framed (@py_in accumulators key data).
Proof. destruct data; eapply framed_pure; reflexivity. Qed.

Lemma framed_py_getitem (data : json) (key : string) :
  records_framed (@py_getitem accumulators data key).
Proof.
  destruct data; try (eapply framed_pure; reflexivity).
  simpl. destruct (dict_get key members); eapply framed_pure; reflexivity.
Qed.

Lemma framed_py_get (data : json) (key : string) (default : json) :
  records_framed (@py_get accumulators data key default).
Proof.
  destruct data; try (eapply framed_pure; reflexivity).
  simpl. destruct (dict_get key members); eapply framed_pure; reflexivity.
Qed.

Lemma framed_on_dialogues {A : Type} (c : comp (list dialogue) A) :
  appends_only c -> records_framed (on_dialogues c).
Proof.
  intros H acc. unfold on_dialogues. simpl. rewrite (H (all_dialogues acc)).
  destruct (c []) as [r ds]. simpl. auto.
Qed.

Lemma framed_extract_document (data : json) (st sid : string) :
  records_framed (extract_document data st sid).
Proof.
  unfold extract_document.
  apply framed_bind; [apply framed_py_in|]. intros [|].
  - apply framed_bind; [apply framed_py_getitem|]. intros dl.
    destruct dl; try (eapply framed_pure; reflexivity).
    apply framed_bind; [apply framed_py_get|]. intros t.
    apply framed_on_dialogues, appends_only_extract.
  - eapply framed_pure; reflexivity.
Qed.

Lemma framed_record_event_name (event_id : Z) (event_title : string) :
  records_framed (record_event_name event_id event_title).
Proof.
  intros acc. unfold record_event_name. simpl.
  destruct (names_get event_id (event_names acc)); simpl; now rewrite app_nil_r.
Qed.

Lemma framed_extract_event_name (data : json) (st sid : string) :
  records_framed (extract_event_name py_int data st sid).
Proof.
  unfold extract_event_name.
  apply framed_bind.
  { destruct (event_bearing st);
      [apply framed_py_in | eapply framed_pure; reflexivity]. }
  intros [|]; [|eapply framed_pure; reflexivity].
  apply framed_bind; [apply framed_py_getitem|]. intros t.
  apply framed_bind.
  { destruct t; eapply framed_pure; reflexivity. }
  intros first_part. apply framed_bind.
  { unfold parse_int. destruct (py_int _); eapply framed_pure; reflexivity. }
  intros event_id. apply framed_record_event_name.
Qed.

Lemma framed_load (f : json_file) : records_framed (@load accumulators f).
Proof. eapply framed_pure. reflexivity. Qed.

Lemma framed_process (doc : document) : records_framed (process py_int doc).
Proof.
  destruct doc as [st f | st p f]; simpl.
  - unfold process_regular. apply framed_bind; [apply framed_load|]. intros data.
    apply framed_bind; [apply framed_extract_event_name|]. intros _.
    apply framed_extract_document.
  - unfold process_special. apply framed_bind; [apply framed_load|]. intros data.
    apply framed_extract_document.
Qed.

(** What a document adds does not depend on the documents before it. *)
Lemma process_adds_contribution (doc : document) (acc : accumulators) :
  all_dialogues (try_except (process py_int doc) acc)
  = all_dialogues acc ++ contribution py_int doc.
Proof. unfold try_except, contribution. apply framed_process. Qed.

Lemma fold_process_records (docs : list document) (acc : accumulators) :
  all_dialogues (fold_left (fun a doc => try_except (process py_int doc) a) docs acc)
  = all_dialogues acc ++ flat_map (contribution py_int) docs.
Proof.
  revert acc. induction docs as [|doc docs IH]; intros acc; simpl.
  - now rewrite app_nil_r.
  - rewrite IH, process_adds_contribution. now rewrite app_assoc.
Qed.

(** A document that cannot be read or parsed changes nothing. *)
Lemma process_unreadable (doc : document) (acc : accumulators) (e : exn) :
  contents (file_of doc) = Raised e ->
  try_except (process py_int doc) acc = acc.
Proof.
  destruct doc as [st f | st p f]; simpl; intros H;
    unfold try_except, process_regular, process_special, bind, load;
    now rewrite H.
Qed.


(** *** Event names *)

Lemma preserved_pure {A : Type} (c : comp accumulators A) (r : outcome A) :
  (forall acc, c acc = (r, acc)) -> names_preserved c.
Proof. intros H acc. now rewrite H. Qed.

Lemma preserved_bind {A B : Type} (c : comp accumulators A)
    (k : A -> comp accumulators B) :
  names_preserved c -> (forall a, names_preserved (k a)) ->
  names_preserved (bind c k).
Proof.
  intros Hc Hk acc. unfold bind. specialize (Hc acc).
  destruct (c acc) as [[a|e] s1]; simpl in *; [|auto].
  now rewrite Hk.
Qed.

Lemma preserved_extract_document (data : json) (st sid : string) :
  names_preserved (extract_document data st sid).
Proof.
  unfold extract_document.
  apply preserved_bind.
  { destruct data; eapply preserved_pure; reflexivity. }
  intros [|]; [|eapply preserved_pure; reflexivity].
  apply preserved_bind.
  { destruct data; try (eapply preserved_pure; reflexivity).
    simpl. destruct (dict_get _ members); eapply preserved_pure; reflexivity. }
  intros dl. destruct dl; try (eapply preserved_pure; reflexivity).
  apply preserved_bind.
  { destruct data; try (eapply preserved_pure; reflexivity).
    simpl. destruct (dict_get _ members); eapply preserved_pure; reflexivity. }
  intros t acc. unfold on_dialogues.
  destruct (extract_dialogues_recursive _ _ _ _ _). reflexivity.
Qed.

(** Lines 83-89 offer exactly [event_entry], first-wins, and pass control on
    when there is an entry to offer. *)
Lemma extract_event_name_names (st : string) (f : json_file) (data : json)
    (acc : accumulators) :
  contents f = Returned data ->
  let r := extract_event_name py_int data st (regular_scenario_id st f) acc in
  event_names (snd r)
  = add_first_wins (event_entry py_int (Regular st f)) (event_names acc)
  /\ all_dialogues (snd r) = all_dialogues acc
  /\ (event_entry py_int (Regular st f) <> None -> fst r = Returned tt).
Proof.
  intros Hf. cbn zeta. unfold extract_event_name, event_entry. rewrite Hf.
  destruct (event_bearing st); [|simpl; intuition congruence].
  destruct data as [ | | | | |items|members];
    try (simpl; intuition congruence).
  - unfold py_in, bind, ret.
    destruct (is_substring "Title" s); simpl; intuition congruence.
  - unfold py_in, bind, ret.
    destruct (existsb _ items); simpl; intuition congruence.
  - unfold py_in, py_getitem, bind, ret.
    destruct (dict_get "Title" members) as [t|]; [|simpl; intuition congruence].
    destruct t as [ | | | |title_text| | ]; try (simpl; intuition congruence).
    unfold title_head, ret, parse_int.
    destruct (py_int _) as [event_id|]; [|simpl; intuition congruence].
    unfold ret, record_event_name, add_first_wins.
    destruct (names_get event_id (event_names acc)); simpl; intuition congruence.
Qed.

Lemma process_names (doc : document) (acc : accumulators) :
  event_names (try_except (process py_int doc) acc)
  = add_first_wins (event_entry py_int doc) (event_names acc).
Proof.
  destruct doc as [st f | st p f]; unfold try_except; cbn [process].
  - unfold process_regular, bind at 1, load.
    destruct (contents f) as [data|e] eqn:Hf.
    + pose proof (extract_event_name_names st f data acc Hf) as (Hn & _ & _).
      cbn zeta in Hn. unfold bind.
      destruct (extract_event_name _ _ _ _ _) as [[[]|e] s1]; cbn [fst snd] in *.
      * rewrite preserved_extract_document. exact Hn.
      * exact Hn.
    + simpl. unfold event_entry. rewrite Hf.
      now destruct (event_bearing st).
  - unfold process_special, bind at 1, load.
    destruct (contents f) as [data|e]; cbn [event_entry add_first_wins snd];
      [|reflexivity].
    apply preserved_extract_document.
Qed.

Lemma names_get_snoc (event_id k : Z) (v : string) (names : list (Z * string)) :
  names_get event_id (names ++ [(k, v)])
  = match names_get event_id names with
    | Some t => Some t
    | None => if Z.eqb k event_id then Some v else None
    end.
Proof.
  induction names as [|[k' v'] names IH]; simpl; [reflexivity|].
  destruct (Z.eqb k' event_id); auto.
Qed.

(** An id that has a title keeps it. *)
Lemma add_first_wins_keeps (entry : option (Z * string)) (names : list (Z * string))
    (event_id : Z) (t : string) :
  names_get event_id names = Some t ->
  names_get event_id (add_first_wins entry names) = Some t.
Proof.
  intros H. destruct entry as [[k v]|]; simpl; [|exact H].
  destruct (names_get k names); [exact H|].
  now rewrite names_get_snoc, H.
Qed.

Lemma fold_process_names (docs : list document) (acc : accumulators) (event_id : Z) :
  names_get event_id
    (event_names (fold_left (fun a doc => try_except (process py_int doc) a) docs acc))
  = match names_get event_id (event_names acc) with
    | Some t => Some t
    | None => names_get event_id (offered py_int docs)
    end.
Proof.
  revert acc. induction docs as [|doc docs IH]; intros acc; simpl.
  - now destruct (names_get event_id (event_names acc)).
  - rewrite IH, process_names.
    destruct (event_entry py_int doc) as [[k v]|]; simpl; [|reflexivity].
    destruct (names_get k (event_names acc)) eqn:Hk.
    + destruct (Z.eqb_spec k event_id) as [->|Hne]; [now rewrite Hk|reflexivity].
    + rewrite names_get_snoc.
      destruct (names_get event_id (event_names acc)); [reflexivity|].
      now destruct (Z.eqb k event_id).
Qed.


(** C9 (amended): no document aborts the run: the loader goes through every
    document in discovery order, each in its own handler.  A document that
    cannot be read or parsed changes neither accumulator, so the run gives
    what it gives without that document.  Any other document, whether or not
    it raises while it is processed, adds to the records the ones it yields
    on its own (for one that raises: those appended before the exception) and
    offers its event-name entry first-wins; what the other documents added
    stays. *)
Theorem unreadable_document_skipped (c : corpus) :
  load_all_dialogues py_int c = run_documents py_int (discovery c)
  /\ fst (load_all_dialogues py_int c)
     = flat_map (contribution py_int) (discovery c)
  /\ (forall doc acc,
        all_dialogues (try_except (process py_int doc) acc)
        = all_dialogues acc ++ contribution py_int doc
        /\ event_names (try_except (process py_int doc) acc)
           = add_first_wins (event_entry py_int doc) (event_names acc))
  /\ (forall doc e acc,
        try_except (process py_int (with_contents doc (Raised e))) acc = acc)
  /\ (forall docs1 docs2 doc e,
        run_documents py_int (docs1 ++ with_contents doc (Raised e) :: docs2)
        = run_documents py_int (docs1 ++ docs2)).
Proof.
  assert (Hskip : forall doc e acc,
             try_except (process py_int (with_contents doc (Raised e))) acc = acc).
  { intros doc e acc. apply (process_unreadable _ acc e). now destruct doc. }
  split; [apply load_all_dialogues_fold|]. split.
  - rewrite load_all_dialogues_fold. cbn zeta. cbn [fst].
    now rewrite fold_process_records.
  - split; [|split; [exact Hskip|]].
    + intros doc acc. split; [apply process_adds_contribution | apply process_names].
    + intros docs1 docs2 doc e. unfold run_documents.
      rewrite !fold_left_app. cbn [fold_left]. now rewrite Hskip.
Qed.

(** C10: in an event-bearing category, a document that has a title and whose
    scenario id does not start with an integer raises before its dialogues
    are looked at: the handler leaves both accumulators as they were. *)
Theorem event_id_failure_skips_document (scenario_type : string) (f : json_file)
    (members : list (string * json)) (title_value : json) (acc : accumulators) :
  event_bearing scenario_type = true ->
  contents f = Returned (JObj members) ->
  dict_get "Title" members = Some title_value ->
  py_int (first_field "-" (regular_scenario_id scenario_type f)) = None ->
  (exists e, process_regular py_int scenario_type f acc = (Raised e, acc))
  /\ try_except (process_regular py_int scenario_type f) acc = acc
  /\ contribution py_int (Regular scenario_type f) = [].
Proof.
  intros Hb Hf Ht Hi.
  assert (H : forall a, exists e,
             process_regular py_int scenario_type f a = (Raised e, a)).
  { intros a. unfold process_regular, bind at 1, load. rewrite Hf.
    unfold extract_event_name. rewrite Hb.
    unfold py_in, py_getitem, bind, ret. rewrite Ht.
    destruct title_value as [ | | | |title_text| | ];
      try (eexists; reflexivity).
    unfold title_head, ret, parse_int. rewrite Hi. eexists; reflexivity. }
  repeat split.
  - apply H.
  - unfold try_except. destruct (H acc) as [e ->]. reflexivity.
  - unfold contribution, try_except. cbn [process].
    destruct (H (mkAcc [] [])) as [e ->]. reflexivity.
Qed.

End LoaderFacts.

(** Two documents of event 7: the title of the first is the one kept. *)
Example first_title_kept :
  snd (load_all_dialogues int_of_digits (only_event [festival_file; festival_sequel]))
  = [(7, "Fest 2024")].
Proof. reflexivity. Qed.

(** C9, as stated: [festival_file] raises [TypeError] in the middle of its
    dialogue list, and by then its first record and its event name are in. *)
Lemma raising_document_not_skipped :
  ~ skipped_when_raising int_of_digits (Regular "event" festival_file).
Proof.
  intros H. specialize (H (mkAcc [] []) TypeError eq_refl).
  vm_compute in H. discriminate H.
Qed.

(** A file that is not valid JSON, between two that are: the run gives what
    it gives without it. *)
Example broken_file_skipped :
  load_all_dialogues int_of_digits
    (only_event [festival_file; broken_file; festival_sequel])
  = load_all_dialogues int_of_digits (only_event [festival_file; festival_sequel]).
Proof. reflexivity. Qed.

Lemma event_id_failure_skips_document_witness :
  event_bearing "event" = true
  /\ contents extra_file
     = Returned (JObj [ ("Title", JStr "Extra");
                        ("Dialogue", JArr [JArr [JStr "A"; JStr "hi"]]) ])
  /\ dict_get "Title" [ ("Title", JStr "Extra");
                        ("Dialogue", JArr [JArr [JStr "A"; JStr "hi"]]) ]
     = Some (JStr "Extra")
  /\ int_of_digits (first_field "-" (regular_scenario_id "event" extra_file)) = None
  /\ (exists e, process_regular int_of_digits "event" extra_file (mkAcc [line_a] [])
                = (Raised e, mkAcc [line_a] []))
  /\ try_except (process_regular int_of_digits "event" extra_file) (mkAcc [line_a] [])
     = mkAcc [line_a] []
  /\ contribution int_of_digits (Regular "event" extra_file) = [].
Proof.
  do 4 (split; [reflexivity|]).
  apply (event_id_failure_skips_document int_of_digits "event" extra_file
           [ ("Title", JStr "Extra");
             ("Dialogue", JArr [JArr [JStr "A"; JStr "hi"]]) ]
           (JStr "Extra") (mkAcc [line_a] []));
    reflexivity.
Defined.

(** ** The packager *)

Section PackagerFacts.

Variable py_int : string -> option Z.
Variable gzip_compress : Z -> string -> string.

(** The file written for a chunk. *)
Lemma written_fold (total : nat) (k : clock) (items : list (nat * list dialogue))
    (st : pack_state) :
  written (fold_left (pack_step gzip_compress total k) items st)
  = written st
    ++ map (fun ic => (chunk_filename (fst ic),
                       gzip_compress (gzip_time k (fst ic))
                         (encode_utf8 (dumps_compact
                                         (chunk_data (fst ic) total (snd ic))))))
           items.
Proof.
  revert st. induction items as [|[idx chunk] items IH]; intros st; simpl.
  - now rewrite app_nil_r.
  - rewrite IH. simpl. now rewrite <- app_assoc.
Qed.

(** The loop reads the clock only through [gzip_time]. *)
Lemma pack_fold_clock (total : nat) (k1 k2 : clock)
    (items : list (nat * list dialogue)) (st : pack_state) :
  (forall idx, gzip_time k1 idx = gzip_time k2 idx) ->
  fold_left (pack_step gzip_compress total k1) items st
  = fold_left (pack_step gzip_compress total k2) items st.
Proof.
  intros H. revert st. induction items as [|[idx chunk] items IH]; intros st; simpl.
  - reflexivity.
  - rewrite IH. unfold pack_step. now rewrite H.
Qed.

(** C7: the total-count field of every chunk written, and [totalChunks] in the
    manifest, are the number of chunks [split_into_chunks] produced; no
    records give no chunks and a manifest with [totalChunks] 0. *)
Theorem total_chunks_consistent (R : list dialogue) (B : Z)
    (names : list (Z * string)) (version_token : string) (k : clock) :
  let cs := split_into_chunks R B in
  let out := compress_and_save_chunks gzip_compress cs names version_token k in
  chunk_files out
  = map (fun ic => (chunk_filename (fst ic),
                    gzip_compress (gzip_time k (fst ic))
                      (encode_utf8 (dumps_compact
                                      (chunk_data (fst ic) (List.length cs) (snd ic))))))
        (enumerate cs)
  /\ (forall idx chunk,
        json_field "totalChunks" (chunk_data idx (List.length cs) chunk)
        = Some (JInt (Z.of_nat (List.length cs))))
  /\ totalChunks (manifest_file out) = Z.of_nat (List.length cs)
  /\ split_into_chunks [] B = []
  /\ totalChunks
       (manifest_file
          (compress_and_save_chunks gzip_compress (split_into_chunks [] B)
             names version_token k)) = 0.
Proof.
  cbn zeta. repeat split.
  unfold compress_and_save_chunks. cbn [chunk_files]. now rewrite written_fold.
Qed.

(** With no chunk, the manifest is written and the summary then divides by
    zero. *)
Lemma empty_build_raises (names : list (Z * string)) (version_token : string)
    (k : clock) :
  finished (compress_and_save_chunks gzip_compress [] names version_token k)
  = Raised ZeroDivisionError.
Proof. reflexivity. Qed.

(** C4 (amended): two runs on the same corpus that read the same date and
    whose compressor stamps the same header times write the same chunk files,
    and manifests that differ in [timestamp] only. *)
Theorem rerun_identical_on_same_clock (c : corpus) (k1 k2 : clock) :
  today k1 = today k2 ->
  (forall idx, gzip_time k1 idx = gzip_time k2 idx) ->
  rerun_identical py_int gzip_compress c k1 k2.
Proof.
  intros Hday Hgz. unfold rerun_identical, main, same_but_timestamp.
  destruct (load_all_dialogues py_int c) as [dialogues names].
  unfold compress_and_save_chunks. cbn [chunk_files manifest_file version
    totalChunks manifest_chunks eventNames totalCompressedSize].
  rewrite (pack_fold_clock _ k1 k2 _ _ Hgz), Hday. repeat split.
Qed.

End PackagerFacts.

(** C4, as stated: a build on 1 May and one on 2 May, same corpus; the second
    manifest has another [version], whatever [int] and the compressor do. *)
Lemma rerun_differs_across_days :
  ~ exists py_int gzip_compress,
      rerun_identical py_int gzip_compress (only_event [festival_sequel])
        evening next_morning.
Proof.
  intros (py_int & gz & _ & Hv & _). revert Hv. unfold main.
  destruct (load_all_dialogues py_int _) as [dialogues names].
  cbn. discriminate.
Qed.

Lemma rerun_identical_on_same_clock_witness :
  today evening = today evening_again
  /\ (forall idx, gzip_time evening idx = gzip_time evening_again idx)
  /\ rerun_identical int_of_digits stamp_only (only_event [festival_sequel])
       evening evening_again.
Proof.
  split; [reflexivity|]. split; [reflexivity|].
  apply (rerun_identical_on_same_clock int_of_digits stamp_only
           (only_event [festival_sequel]) evening evening_again);
    reflexivity.
Defined.

(** * Further properties *)

(** ** Greedy packing *)

Lemma split_concat (R : list dialogue) (B : Z) :
  List.concat (split_into_chunks R B) = R.
Proof. unfold split_into_chunks. now rewrite concat_split_finish. Qed.

Lemma concat_length_nonempty {A : Type} (cs : list (list A)) :
  Forall (fun c => c <> []) cs ->
  (List.length cs <= List.length (List.concat cs))%nat.
Proof.
  induction 1 as [|c cs Hc _ IH]; simpl; [lia|].
  rewrite length_app. destruct c; [congruence|]. simpl. lia.
Qed.

(** X1: no chunk is empty, there are at most as many chunks as records, and
    there is no chunk at all only when there is no record. *)
Theorem chunks_nonempty_and_few (R : list dialogue) (B : Z) :
  Forall (fun c => c <> []) (split_into_chunks R B)
  /\ (List.length (split_into_chunks R B) <= List.length R)%nat
  /\ (split_into_chunks R B = [] <-> R = []).
Proof.
  pose proof (split_into_chunks_nonempty R B) as Hne.
  pose proof (split_concat R B) as Hc.
  split; [exact Hne|]. split.
  - rewrite <- Hc at 2. now apply concat_length_nonempty.
  - split; intros H.
    + rewrite H in Hc. simpl in Hc. congruence.
    + subst R. reflexivity.
Qed.

(** Records that fit together stay in the open chunk. *)
Lemma split_fold_fits (B : Z) (R cur : list dialogue) :
  chunk_size (cur ++ R) <= B ->
  fold_left (split_step B) R (mkSplit [] cur (chunk_size cur))
  = mkSplit [] (cur ++ R) (chunk_size (cur ++ R)).
Proof.
  revert cur. induction R as [|d R IH]; intros cur H.
  - now rewrite app_nil_r.
  - simpl fold_left. unfold split_step at 2. cbn [current_size current_chunk chunks].
    assert (Hd : chunk_size (cur ++ [d]) <= B).
    { replace (cur ++ d :: R) with ((cur ++ [d]) ++ R) in H
        by now rewrite <- app_assoc.
      revert H. generalize (cur ++ [d]). intros l H.
      assert (chunk_size (l ++ R) = chunk_size l + chunk_size R).
      { clear. induction l as [|x l IHl]; simpl; [reflexivity|]. rewrite IHl. lia. }
      pose proof (chunk_size_nonneg R). lia. }
    rewrite chunk_size_snoc in Hd.
    replace (chunk_size cur + dialogue_size d >? B) with false
      by (symmetry; rewrite Z.gtb_ltb; apply Z.ltb_ge; lia).
    cbn [andb current_size current_chunk chunks].
    rewrite <- chunk_size_snoc, IH; rewrite <- app_assoc; [reflexivity|exact H].
Qed.

(** X2: records whose measured sizes add up to at most the budget make one
    chunk. *)
Theorem fitting_records_one_chunk (R : list dialogue) (B : Z) :
  R <> [] -> chunk_size R <= B -> split_into_chunks R B = [R].
Proof.
  intros Hne H. unfold split_into_chunks.
  change (mkSplit [] [] 0) with (mkSplit [] [] (chunk_size [])).
  rewrite split_fold_fits by exact H.
  unfold split_finish. simpl. destruct R; [congruence|reflexivity].
Qed.

Lemma fitting_records_one_chunk_witness :
  [line_a; line_b] <> [] /\ chunk_size [line_a; line_b] <= 184
  /\ split_into_chunks [line_a; line_b] 184 = [[line_a; line_b]].
Proof.
  split; [discriminate|]. split; [vm_compute; discriminate|].
  apply (fitting_records_one_chunk [line_a; line_b] 184);
    [discriminate | vm_compute; discriminate].
Defined.

Lemma nil_or_snoc {A : Type} (l : list A) :
  l = [] \/ exists l' z, l = l' ++ [z].
Proof.
  destruct l as [|x l]; [now left|right].
  destruct (exists_last (l := x :: l)) as (l' & z & H); [discriminate|eauto].
Qed.

(** Where a pair of neighbours sits in a list that ends in [last]. *)
Lemma neighbours_snoc {A : Type} (cs before after : list A) (last x y : A) :
  cs ++ [last] = before ++ x :: y :: after ->
  (after = [] /\ y = last /\ cs = before ++ [x])
  \/ exists after', after = after' ++ [last] /\ cs = before ++ x :: y :: after'.
Proof.
  intros H. destruct (nil_or_snoc after) as [-> | (after' & z & ->)].
  - left. replace (before ++ [x; y]) with ((before ++ [x]) ++ [y]) in H
      by now rewrite <- app_assoc.
    apply app_inj_tail in H as [-> ->]. auto.
  - right. exists after'.
    replace (before ++ x :: y :: after' ++ [z])
      with ((before ++ x :: y :: after') ++ [z]) in H
      by now rewrite <- app_assoc.
    apply app_inj_tail in H as [-> ->]. auto.
Qed.

Lemma tight_close (B : Z) (cs : list (list dialogue)) (cur : list dialogue)
    (d : dialogue) :
  tight B (cs ++ [cur]) -> chunk_size cur + dialogue_size d > B ->
  tight B ((cs ++ [cur]) ++ [[d]]).
Proof.
  intros Ht Hd before chunk next after H.
  apply neighbours_snoc in H as [(-> & -> & H) | (after' & -> & H)].
  - apply app_inj_tail in H as [_ ->]. exact Hd.
  - eapply Ht. exact H.
Qed.

Lemma tight_grow (B : Z) (cs : list (list dialogue)) (cur : list dialogue)
    (d : dialogue) :
  tight B (cs ++ [cur]) -> cur <> [] -> tight B (cs ++ [cur ++ [d]]).
Proof.
  intros Ht Hne before chunk next after H.
  apply neighbours_snoc in H as [(-> & -> & ->) | (after' & -> & ->)].
  - specialize (Ht before chunk cur []).
    rewrite <- app_assoc in Ht. specialize (Ht eq_refl).
    destruct cur; [congruence|exact Ht].
  - apply (Ht before chunk next (after' ++ [cur])).
    now rewrite <- app_assoc.
Qed.

Lemma split_step_empty (B : Z) (cs : list (list dialogue)) (sz : Z) (d : dialogue) :
  split_step B (mkSplit cs [] sz) d = mkSplit cs [d] (sz + dialogue_size d).
Proof. unfold split_step; simpl. now rewrite andb_false_r. Qed.

Lemma split_step_open (B : Z) (cs : list (list dialogue)) (x : dialogue)
    (cur : list dialogue) (sz : Z) (d : dialogue) :
  split_step B (mkSplit cs (x :: cur) sz) d
  = if sz + dialogue_size d >? B
    then mkSplit (cs ++ [x :: cur]) [d] (0 + dialogue_size d)
    else mkSplit cs ((x :: cur) ++ [d]) (sz + dialogue_size d).
Proof.
  unfold split_step; simpl. rewrite andb_true_r.
  now destruct (sz + dialogue_size d >? B).
Qed.

(** What the loop keeps, for tightness. *)
Lemma split_fold_tight (B : Z) (R : list dialogue) (st : split_state) :
  current_size st = chunk_size (current_chunk st) ->
  (current_chunk st = [] -> chunks st = []) ->
  tight B (split_finish st) ->
  tight B (split_finish (fold_left (split_step B) R st)).
Proof.
  revert st. induction R as [|d R IH]; intros [cs cur sz] Hsz Hnil Ht; [exact Ht|].
  cbn [current_size current_chunk chunks] in Hsz, Hnil. subst sz.
  simpl fold_left. destruct cur as [|x cur].
  - rewrite split_step_empty, (Hnil eq_refl). apply IH.
    + cbn [current_size current_chunk]. rewrite chunk_size_cons. reflexivity.
    + discriminate.
    + intros [|? [|? ?]] ? ? ? H; discriminate H.
  - rewrite split_step_open.
    destruct (chunk_size (x :: cur) + dialogue_size d >? B) eqn:Hgt; apply IH.
    + reflexivity.
    + discriminate.
    + apply Z.gtb_lt in Hgt.
      apply (tight_close B cs (x :: cur) d Ht). lia.
    + cbn [current_size current_chunk]. symmetry. apply chunk_size_snoc.
    + discriminate.
    + apply (tight_grow B cs (x :: cur) d Ht). discriminate.
Qed.

(** X3: the packing is greedy: wherever a chunk is followed by another, the
    first record of the second would have taken the first over the budget. *)
Theorem chunks_closed_when_full (R : list dialogue) (B : Z)
    (before after : list (list dialogue)) (chunk next : list dialogue) :
  split_into_chunks R B = before ++ chunk :: next :: after ->
  exists d rest, next = d :: rest /\ chunk_size chunk + dialogue_size d > B.
Proof.
  intros H.
  assert (Ht : tight B (split_into_chunks R B)).
  { unfold split_into_chunks. apply split_fold_tight; try reflexivity.
    intros [|? [|? ?]] ? ? ? H'; discriminate H'. }
  specialize (Ht _ _ _ _ H). destruct next as [|d rest]; [destruct Ht|eauto].
Qed.

Lemma chunks_closed_when_full_witness :
  split_into_chunks [line_a; line_b; line_a] 184
  = [] ++ [line_a; line_b] :: [line_a] :: []
  /\ exists d rest, [line_a] = d :: rest
                    /\ chunk_size [line_a; line_b] + dialogue_size d > 184.
Proof.
  split; [vm_compute; reflexivity|].
  apply (chunks_closed_when_full [line_a; line_b; line_a] 184 [] []
           [line_a; line_b] [line_a]).
  vm_compute; reflexivity.
Defined.

(** X4: a chunk of seven records or more whose measured sizes are within the
    budget is also written within the budget, as long as its index and the
    chunk count take twelve digits or fewer together. *)
Theorem large_chunk_written_within_budget (idx total : nat)
    (chunk : list dialogue) (B : Z) :
  (7 <= List.length chunk)%nat ->
  len (repr_int (Z.of_nat idx)) + len (repr_int (Z.of_nat total)) <= 12 ->
  chunk_size chunk <= B ->
  len (chunk_bytes idx total chunk) <= B.
Proof.
  intros Hk Hdigits Hsize. destruct chunk as [|d chunk]; [simpl in Hk; lia|].
  rewrite chunk_bytes_length.
  pose proof (compact_total_le (d :: chunk)) as Hc.
  rewrite length_cons_Z in Hc. simpl in Hk. lia.
Qed.

Lemma large_chunk_written_within_budget_witness :
  (7 <= List.length seven_lines)%nat
  /\ len (repr_int (Z.of_nat 3)) + len (repr_int (Z.of_nat 12)) <= 12
  /\ chunk_size seven_lines <= 644
  /\ len (chunk_bytes 3 12 seven_lines) <= 644.
Proof.
  split; [vm_compute; lia|]. split; [vm_compute; discriminate|].
  split; [vm_compute; discriminate|].
  apply (large_chunk_written_within_budget 3 12 seven_lines 644);
    [vm_compute; lia | vm_compute; discriminate | vm_compute; discriminate].
Defined.

(** ** The extractor, further *)

(** X5: the extractor leaves the records already in [all_dialogues] in place
    and adds behind them; what it adds and how it ends do not depend on them;
    and it ends by returning or by the [TypeError] of a [branch] that is not
    iterable, nothing else. *)
Theorem extractor_appends_and_outcome (dialogue_list : list json)
    (scenario_type scenario_id : string) (title_value : json)
    (all_dialogues : list dialogue) :
  let run := extract_dialogues_recursive dialogue_list scenario_type scenario_id
               title_value in
  run all_dialogues = (fst (run []), all_dialogues ++ snd (run []))
  /\ (fst (run all_dialogues) = Returned tt
      \/ fst (run all_dialogues) = Raised TypeError).
Proof.
  cbn zeta. split; [apply appends_only_extract | apply extract_outcome].
Qed.

Lemma for_each_app {S A : Type} (l1 l2 : list A) (f : A -> comp S unit) (s : S) :
  for_each (l1 ++ l2) f s = (for_each l1 f ;; for_each l2 f) s.
Proof.
  revert s. induction l1 as [|x l1 IH]; intros s; simpl.
  - unfold bind, ret. reflexivity.
  - unfold bind in *. destruct (f x s) as [[[]|e] s']; auto.
Qed.

(** X6: an entry the extractor has no case for is passed over: the result is
    the same as without it. *)
Theorem unrecognized_entry_skipped (before after : list json) (item : json)
    (scenario_type scenario_id : string) (title_value : json)
    (all_dialogues : list dialogue) :
  unrecognized item ->
  extract_dialogues_recursive (before ++ item :: after) scenario_type scenario_id
    title_value all_dialogues
  = extract_dialogues_recursive (before ++ after) scenario_type scenario_id
      title_value all_dialogues.
Proof.
  intros [Hpair Hdict]. rewrite !extract_dialogues_recursive_unfold, !for_each_app.
  apply bind_ext. intros _ s. cbn [for_each]. unfold bind at 1.
  now rewrite item_body_other.
Qed.

Lemma unrecognized_entry_skipped_witness :
  unrecognized (JArr [JStr "narration only"])
  /\ extract_dialogues_recursive
       ([JArr [JStr "A"; JStr "hi"]] ++ JArr [JStr "narration only"]
        :: [JArr [JStr "A"; JStr "bye"]]) "main" "001" (JStr "T") [line_b]
     = extract_dialogues_recursive
         ([JArr [JStr "A"; JStr "hi"]] ++ [JArr [JStr "A"; JStr "bye"]])
         "main" "001" (JStr "T") [line_b].
Proof.
  assert (H : unrecognized (JArr [JStr "narration only"])).
  { split; [intros a b H; discriminate H | intros members H; discriminate H]. }
  split; [exact H|].
  apply (unrecognized_entry_skipped [JArr [JStr "A"; JStr "hi"]]
           [JArr [JStr "A"; JStr "bye"]] (JArr [JStr "narration only"])
           "main" "001" (JStr "T") [line_b] H).
Defined.

(** X7: a [branch] that is not iterable ends the extraction with [TypeError]:
    the records of the entries before it are in, those of the entries after it
    never are. *)
Theorem branch_not_iterable_aborts (before after : list json)
    (members : list (string * json)) (branch : json)
    (scenario_type scenario_id : string) (title_value : json)
    (all_dialogues reached : list dialogue) :
  dict_get "branch" members = Some branch ->
  not_iterable branch ->
  extract_dialogues_recursive before scenario_type scenario_id title_value
    all_dialogues = (Returned tt, reached) ->
  extract_dialogues_recursive (before ++ JObj members :: after) scenario_type
    scenario_id title_value all_dialogues
  = (Raised TypeError, reached).
Proof.
  intros Hb Hv Hrun.
  rewrite extract_dialogues_recursive_unfold in Hrun.
  rewrite extract_dialogues_recursive_unfold, for_each_app.
  unfold bind at 1. rewrite Hrun. cbn [for_each]. unfold bind at 1.
  unfold item_body. rewrite Hb.
  destruct branch; try destruct Hv; reflexivity.
Qed.

Lemma branch_not_iterable_aborts_witness :
  dict_get "branch" [("branch", JNull)] = Some JNull
  /\ not_iterable JNull
  /\ extract_dialogues_recursive [JArr [JStr "A"; JStr "hi"]] "main" "001"
       (JStr "T") [] = (Returned tt, [line_a])
  /\ extract_dialogues_recursive
       ([JArr [JStr "A"; JStr "hi"]] ++ JObj [("branch", JNull)]
        :: [JArr [JStr "B"; JStr "yo"]]) "main" "001" (JStr "T") []
     = (Raised TypeError, [line_a]).
Proof.
  split; [reflexivity|]. split; [exact I|]. split; [reflexivity|].
  apply (branch_not_iterable_aborts [JArr [JStr "A"; JStr "hi"]]
           [JArr [JStr "B"; JStr "yo"]] [("branch", JNull)] JNull
           "main" "001" (JStr "T") [] [line_a]);
    [reflexivity | exact I | reflexivity].
Defined.

(** *** Records carry their context *)

Lemma adds_only_bind (P : dialogue -> Prop) {A B : Type}
    (c : comp (list dialogue) A) (k : A -> comp (list dialogue) B) :
  (forall a, appends_only (k a)) ->
  adds_only P c -> (forall a, adds_only P (k a)) -> adds_only P (bind c k).
Proof.
  intros Hk Hc Hka. unfold adds_only, bind in *.
  destruct (c []) as [[a|e] s1]; simpl in *; [|exact Hc].
  rewrite (Hk a s1). simpl. apply Forall_app. split; [exact Hc | apply Hka].
Qed.

Lemma adds_only_for_each (P : dialogue -> Prop) {A : Type} (l : list A)
    (f : A -> comp (list dialogue) unit) :
  (forall x, appends_only (f x)) -> (forall x, adds_only P (f x)) ->
  adds_only P (for_each l f).
Proof.
  intros Ha Hp. induction l as [|x l IH]; simpl.
  - constructor.
  - apply adds_only_bind; auto. intros _. now apply appends_only_for_each.
Qed.

Lemma adds_only_item_body (recur : list json -> comp (list dialogue) unit)
    (st sid : string) (title_value : json) (item : json) :
  (forall nested, appends_only (recur nested)) ->
  (forall nested, adds_only (in_context st sid title_value) (recur nested)) ->
  adds_only (in_context st sid title_value) (item_body recur st sid title_value item).
Proof.
  intros Ha Hp.
  assert (Hnone : forall X (x : X),
             adds_only (in_context st sid title_value) (@ret (list dialogue) X x))
    by (intros; constructor).
  assert (Hone : forall a b,
             adds_only (in_context st sid title_value)
               (append (mkDialogue st sid a b title_value))).
  { intros a b. repeat constructor. }
  unfold item_body.
  destruct item as [ | | | | |[|a [|b [|c rest]]]|members]; auto.
  destruct (dict_get "branch" members) as [branch|]; [|auto].
  apply adds_only_bind.
  - intros options. apply appends_only_for_each. intros o. unfold option_body.
    destruct o as [ | | | | |[|c [|bd rest]]|]; auto using appends_only_ret.
    apply appends_only_bind; [apply appends_only_append|]. intros _.
    destruct bd; auto using appends_only_ret.
  - destruct branch; simpl; constructor.
  - intros options. apply adds_only_for_each; intros o; unfold option_body;
      destruct o as [ | | | | |[|c [|bd rest]]|]; auto using appends_only_ret.
    + apply appends_only_bind; [apply appends_only_append|]. intros _.
      destruct bd; auto using appends_only_ret.
    + apply adds_only_bind; auto.
      * intros _. destruct bd; auto using appends_only_ret.
      * intros _. destruct bd; auto.
Qed.

Lemma adds_only_extract (dialogue_list : list json) (st sid : string)
    (title_value : json) :
  adds_only (in_context st sid title_value)
    (extract_dialogues_recursive dialogue_list st sid title_value).
Proof.
  unfold extract_dialogues_recursive.
  generalize (S (list_depth dialogue_list)) as depth. intros depth.
  revert dialogue_list. induction depth as [|depth IH]; intros dl.
  - constructor.
  - rewrite extract_rec_S. apply adds_only_for_each; intros item.
    + apply appends_only_item_body. intros nested. apply appends_only_extract_rec.
    + apply adds_only_item_body; [|exact IH].
      intros nested. apply appends_only_extract_rec.
Qed.

(** ** The loader, further *)

Section LoaderMore.

Variable py_int : string -> option Z.

Lemma extract_document_adds (data : json) (st sid : string)
    (names : list (Z * string)) :
  Forall (in_context st sid
            (match data with
             | JObj members =>
                 match dict_get "Title" members with
                 | Some v => v
                 | None => JStr ""
                 end
             | _ => JStr ""
             end))
         (all_dialogues (snd (extract_document data st sid (mkAcc [] names)))).
Proof.
  unfold extract_document, py_in, py_getitem, py_get, bind, ret, raise.
  destruct data as [ | | | |s|items|members]; simpl; try constructor.
  - destruct (is_substring "Dialogue" s); constructor.
  - destruct (existsb _ items); constructor.
  - destruct (dict_get "Dialogue" members) as [dl|]; simpl; [|constructor].
    destruct dl as [ | | | | |dialogue_list| ]; simpl; try constructor.
    destruct (dict_get "Title" members) as [t|]; unfold on_dialogues; simpl.
    + pose proof (adds_only_extract dialogue_list st sid t) as H.
      unfold adds_only in H.
      destruct (extract_dialogues_recursive dialogue_list st sid t []).
      exact H.
    + pose proof (adds_only_extract dialogue_list st sid (JStr "")) as H.
      unfold adds_only in H.
      destruct (extract_dialogues_recursive dialogue_list st sid (JStr "") []).
      exact H.
Qed.

(** X8: every record a document contributes carries the scenario type of the
    loader branch that read it, the scenario id derived from its file name,
    and the document's [Title] (the empty string when it has none), also
    inside nested branches. *)
Theorem records_carry_document_context (doc : document) :
  Forall (in_context (doc_type doc) (doc_id doc) (doc_title doc))
         (contribution py_int doc).
Proof.
  unfold contribution, try_except, doc_title.
  destruct doc as [st f | st p f]; cbn [process doc_type doc_id file_of].
  - unfold process_regular, bind at 1, load.
    destruct (contents f) as [data|e] eqn:Hf; [|constructor].
    pose proof (extract_event_name_names py_int st f data (mkAcc [] []) Hf)
      as (_ & Hd & _). cbn zeta in Hd. unfold bind.
    destruct (extract_event_name _ _ _ _ _) as [[[]|e] [ds names]];
      cbn [all_dialogues snd] in *; subst ds; [|constructor].
    apply extract_document_adds.
  - unfold process_special, bind at 1, load.
    destruct (contents f) as [data|e]; [|constructor].
    apply extract_document_adds.
Qed.

(** X9: outside the event-bearing types, a document that is a dict without a
    [Dialogue] list is no error: its handler returns and changes nothing. *)
Theorem no_dialogue_list_no_records (doc : document)
    (members : list (string * json)) (acc : accumulators) :
  event_bearing (doc_type doc) = false ->
  contents (file_of doc) = Returned (JObj members) ->
  (forall items, dict_get "Dialogue" members <> Some (JArr items)) ->
  process py_int doc acc = (Returned tt, acc).
Proof.
  intros Hb Hf Hd.
  assert (H : extract_document (JObj members) (doc_type doc) (doc_id doc) acc
              = (Returned tt, acc)).
  { unfold extract_document, py_in, py_getitem, bind, ret.
    destruct (dict_get "Dialogue" members) as [dl|]; [|reflexivity].
    destruct dl; try reflexivity. now destruct (Hd items). }
  destruct doc as [st f | st p f]; cbn [process doc_type doc_id file_of] in *.
  - unfold process_regular, bind at 1, load. rewrite Hf.
    unfold extract_event_name. rewrite Hb. unfold bind at 1, ret. exact H.
  - unfold process_special, bind at 1, load. rewrite Hf. exact H.
Qed.

Lemma fold_names (docs : list document) (acc : accumulators) :
  event_names (fold_left (fun a doc => try_except (process py_int doc) a) docs acc)
  = fold_left (fun names doc => add_first_wins (event_entry py_int doc) names)
      docs (event_names acc).
Proof.
  revert acc. induction docs as [|doc docs IH]; intros acc; simpl; [reflexivity|].
  now rewrite IH, process_names.
Qed.

Lemma fold_names_none (docs : list document) (names : list (Z * string)) :
  Forall (fun doc => event_entry py_int doc = None) docs ->
  fold_left (fun names doc => add_first_wins (event_entry py_int doc) names)
    docs names = names.
Proof.
  induction 1 as [|doc docs Hdoc _ IH]; simpl; [reflexivity|].
  now rewrite Hdoc.
Qed.

Lemma no_entry_regular (st : string) (json_files : list json_file) :
  event_bearing st = false ->
  Forall (fun doc => event_entry py_int doc = None) (map (Regular st) json_files).
Proof.
  intros H. apply Forall_forall. intros doc Hin.
  apply in_map_iff in Hin as (f & <- & _). simpl. now rewrite H.
Qed.

Lemma no_entry_special (st p : string) (json_files : list json_file) :
  Forall (fun doc => event_entry py_int doc = None) (map (Special st p) json_files).
Proof.
  apply Forall_forall. intros doc Hin.
  apply in_map_iff in Hin as (f & <- & _). reflexivity.
Qed.

(** X10: the event-name mapping is made by the [event] and [caulis]
    directories alone, in that order; no other directory adds to it or
    changes it. *)
Theorem event_names_from_event_directories (c : corpus) :
  snd (load_all_dialogues py_int c)
  = snd (run_documents py_int (event_documents c)).
Proof.
  rewrite load_all_dialogues_fold. unfold run_documents. cbn zeta. cbn [snd].
  rewrite !fold_names. unfold discovery, event_documents, types, special_directories.
  cbn [flat_map fst snd regular_directory String.eqb Ascii.eqb Bool.eqb].
  rewrite !app_nil_r, !fold_left_app.
  rewrite (fold_names_none (map (Regular "main") _)) by now apply no_entry_regular.
  rewrite (fold_names_none (map (Regular "card") _)) by now apply no_entry_regular.
  rewrite (fold_names_none (map (Regular "love") _)) by now apply no_entry_regular.
  rewrite !(fold_names_none (map (Special _ _) _)) by apply no_entry_special.
  reflexivity.
Qed.

Lemma names_get_none (event_id : Z) (names : list (Z * string)) :
  names_get event_id names = None -> ~ In event_id (map fst names).
Proof.
  induction names as [|[k v] names IH]; simpl; [tauto|].
  destruct (Z.eqb_spec k event_id); [discriminate|].
  intros H [Hk | Hin]; [congruence | now apply IH].
Qed.

Lemma add_first_wins_nodup (entry : option (Z * string)) (names : list (Z * string)) :
  NoDup (map fst names) -> NoDup (map fst (add_first_wins entry names)).
Proof.
  intros H. destruct entry as [[k v]|]; simpl; [|exact H].
  destruct (names_get k names) eqn:Hk; [exact H|].
  rewrite map_app. simpl. apply NoDup_app.
  repeat split; auto.
  - repeat constructor. intros [].
  - intros x Hx [<- | []]. now apply (names_get_none _ _ Hk).
Qed.

(** X11: no event id has two entries in the mapping. *)
Theorem event_names_keys_distinct (c : corpus) :
  NoDup (map fst (snd (load_all_dialogues py_int c))).
Proof.
  rewrite load_all_dialogues_fold. cbn zeta. cbn [snd]. rewrite fold_names.
  generalize (discovery c). intros docs.
  assert (H : NoDup (map fst (event_names (mkAcc [] [])))) by constructor.
  revert H. generalize (event_names (mkAcc [] [])).
  induction docs as [|doc docs IH]; intros names H; simpl; [exact H|].
  apply IH. now apply add_first_wins_nodup.
Qed.

End LoaderMore.

Lemma no_dialogue_list_no_records_witness :
  event_bearing (doc_type (Regular "card" odd_card_file)) = false
  /\ contents (file_of (Regular "card" odd_card_file))
     = Returned (JObj [("Title", JStr "Card"); ("Dialogue", JStr "soon")])
  /\ (forall items,
        dict_get "Dialogue" [("Title", JStr "Card"); ("Dialogue", JStr "soon")]
        <> Some (JArr items))
  /\ process int_of_digits (Regular "card" odd_card_file) (mkAcc [line_a] [])
     = (Returned tt, mkAcc [line_a] []).
Proof.
  split; [reflexivity|]. split; [reflexivity|].
  assert (H : forall items,
             dict_get "Dialogue" [("Title", JStr "Card"); ("Dialogue", JStr "soon")]
             <> Some (JArr items)) by (intros items; discriminate).
  split; [exact H|].
  apply (no_dialogue_list_no_records int_of_digits (Regular "card" odd_card_file)
           [("Title", JStr "Card"); ("Dialogue", JStr "soon")]
           (mkAcc [line_a] []) eq_refl eq_refl H).
Defined.

(** ** Scenario ids *)

Lemma prefix_append (p s : string) : prefix p (p +++ s) = true.
Proof.
  induction p as [|c p IH]; simpl; [now destruct s|].
  destruct (ascii_dec c c); [exact IH | congruence].
Qed.

(** The characters of a matched occurrence are passed over. *)
Lemma replace_from_skip (old new q s : string) :
  replace_from old new (String.length q) (q +++ s) = replace_from old new O s.
Proof. induction q as [|c q IH]; simpl; [reflexivity | exact IH]. Qed.

Lemma str_replace_prefix (c : ascii) (p new s : string) :
  str_replace (String c p) new (String c p +++ s)
  = new +++ str_replace (String c p) new s.
Proof.
  unfold str_replace.
  change (String c p +++ s) with (String c (p +++ s)).
  cbn [replace_from].
  change (String c (p +++ s)) with (String c p +++ s).
  rewrite prefix_append. cbn [String.length].
  replace (S (String.length p) - 1)%nat with (String.length p) by lia.
  now rewrite replace_from_skip.
Qed.

Lemma str_replace_absent (old new s : string) :
  is_substring old s = false -> str_replace old new s = s.
Proof.
  unfold str_replace. induction s as [|c s IH]; [reflexivity|].
  cbn [is_substring replace_from]. intros H.
  apply orb_false_iff in H as [Hp Hs]. rewrite Hp. now rewrite IH.
Qed.

Lemma regular_prefix_cons (scenario_type : string) :
  exists c p, regular_prefix scenario_type = String c p.
Proof.
  unfold regular_prefix. destruct (String.eqb scenario_type "caulis"); simpl; eauto.
Qed.

(** X12: for a file of a regular type named by the type's prefix followed by
    [rest], where the prefix does not occur again inside [rest], the scenario
    id is [rest]; and a stem in which the prefix does not occur at all is the
    scenario id as it is. *)
Theorem scenario_id_strips_prefix (scenario_type rest : string)
    (data : outcome json) :
  is_substring (regular_prefix scenario_type) rest = false ->
  regular_scenario_id scenario_type
    (mkFile (regular_prefix scenario_type +++ rest) data) = rest
  /\ regular_scenario_id scenario_type (mkFile rest data) = rest.
Proof.
  intros H.
  assert (Hid : forall f, regular_scenario_id scenario_type f
                          = str_replace (regular_prefix scenario_type) "" (stem f)).
  { intros f. unfold regular_scenario_id, regular_prefix.
    now destruct (String.eqb scenario_type "caulis"). }
  rewrite !Hid. cbn [stem].
  destruct (regular_prefix_cons scenario_type) as (c & p & Hp).
  rewrite Hp in *. rewrite str_replace_prefix.
  rewrite (str_replace_absent _ _ _ H). auto.
Qed.

Lemma scenario_id_strips_prefix_witness :
  is_substring (regular_prefix "event") "7-1" = false
  /\ regular_scenario_id "event"
       (mkFile (regular_prefix "event" +++ "7-1") (Raised OSError)) = "7-1"
  /\ regular_scenario_id "event" (mkFile "7-1" (Raised OSError)) = "7-1".
Proof.
  split; [reflexivity|].
  apply (scenario_id_strips_prefix "event" "7-1" (Raised OSError)).
  reflexivity.
Defined.

(** The prefix is taken out wherever it occurs, not only in front. *)
Example scenario_id_inner_occurrence :
  regular_scenario_id "main"
    (mkFile "scenario_main_a_scenario_main_b" (Raised OSError)) = "a_b".
Proof. reflexivity. Qed.

(** ** The packager, further *)

Lemma repr_int_inj (a b : Z) : repr_int a = repr_int b -> a = b.
Proof.
  unfold repr_int. intros H.
  assert (Hn : forall z, Z.to_int z <> Decimal.Pos Decimal.Nil
                         /\ Z.to_int z <> Decimal.Neg Decimal.Nil).
  { intros [|p|p]; simpl; split; try discriminate;
      intros [= Hp]; now apply (DecimalPos.Unsigned.to_uint_nonnil p). }
  apply DecimalZ.to_int_inj.
  assert (Ha := NilZero.isi (Z.to_int a) (proj1 (Hn a)) (proj2 (Hn a))).
  assert (Hb := NilZero.isi (Z.to_int b) (proj1 (Hn b)) (proj2 (Hn b))).
  rewrite H in Ha. congruence.
Qed.

Lemma append_inv_tail (a b s : string) : a +++ s = b +++ s -> a = b.
Proof.
  intros H.
  assert (Hl : list_ascii_of_string a ++ list_ascii_of_string s
               = list_ascii_of_string b ++ list_ascii_of_string s).
  { assert (Happ : forall x y, list_ascii_of_string (x +++ y)
                               = list_ascii_of_string x ++ list_ascii_of_string y).
    { induction x as [|c x IH]; intros y; simpl; [reflexivity | now rewrite IH]. }
    now rewrite <- !Happ, H. }
  apply app_inv_tail in Hl.
  rewrite <- (string_of_list_ascii_of_string a), Hl.
  apply string_of_list_ascii_of_string.
Qed.

Lemma chunk_filename_inj (i j : nat) : chunk_filename i = chunk_filename j -> i = j.
Proof.
  unfold chunk_filename. intros H.
  assert (Hpre : forall p x y, p +++ x = p +++ y -> x = y).
  { induction p as [|c p IH]; simpl; intros x y E; [exact E|].
    injection E as E. now apply IH. }
  apply Hpre, append_inv_tail, repr_int_inj in H. lia.
Qed.

Lemma map_fst_enumerate {A : Type} (l : list A) :
  map fst (enumerate l) = seq O (List.length l).
Proof.
  unfold enumerate. generalize O.
  induction l as [|x l IH]; intros n; simpl; [reflexivity | now rewrite IH].
Qed.

Lemma map_snd_enumerate {A : Type} (l : list A) :
  map snd (enumerate l) = l.
Proof.
  unfold enumerate. generalize O.
  induction l as [|x l IH]; intros n; simpl; [reflexivity | now rewrite IH].
Qed.

Section PackagerMore.

Variable py_int : string -> option Z.
Variable gzip_compress : Z -> string -> string.

(** The loop, all at once. *)
Lemma pack_fold (total : nat) (k : clock) (items : list (nat * list dialogue))
    (st : pack_state) :
  fold_left (pack_step gzip_compress total k) items st
  = mkPack
      (written st
       ++ map (fun item => (chunk_filename (fst item),
                            gzip_compress (gzip_time k (fst item))
                              (chunk_bytes (fst item) total (snd item)))) items)
      (entries st ++ map (entry_of gzip_compress total k) items)
      (total_uncompressed st
       + total_of (map (fun item => len (chunk_bytes (fst item) total (snd item)))
                       items))
      (total_compressed st
       + total_of (map (fun item => len (gzip_compress (gzip_time k (fst item))
                                           (chunk_bytes (fst item) total (snd item))))
                       items)).
Proof.
  revert st. induction items as [|[idx chunk] items IH]; intros [w e tu tc].
  - cbn [fold_left map total_of fold_right written entries total_uncompressed
         total_compressed].
    now rewrite !app_nil_r, !Z.add_0_r.
  - cbn [fold_left]. rewrite IH. unfold pack_step.
    cbn [written entries total_uncompressed total_compressed map fst snd
         total_of fold_right].
    unfold entry_of at 2. cbn [fst snd].
    f_equal; try (now rewrite <- app_assoc); unfold total_of; lia.
Qed.

(** X13: the manifest describes the files written: entry by entry the file
    name and the compressed size are those of the file, the index is the
    position, the record count is the length of the chunk, the uncompressed
    size is that of the chunk's JSON; the total compressed size is the sum over
    the entries. *)
Theorem manifest_describes_files (chunk_list : list (list dialogue))
    (names : list (Z * string)) (version_token : string) (k : clock) :
  let out := compress_and_save_chunks gzip_compress chunk_list names
               version_token k in
  let m := manifest_file out in
  map (fun e => (filename e, compressedSize e)) (manifest_chunks m)
  = map (fun file => (fst file, len (snd file))) (chunk_files out)
  /\ map index (manifest_chunks m)
     = map Z.of_nat (seq O (List.length chunk_list))
  /\ map dialogueCount (manifest_chunks m)
     = map (fun chunk => Z.of_nat (List.length chunk)) chunk_list
  /\ map uncompressedSize (manifest_chunks m)
     = map (fun item => len (chunk_bytes (fst item) (List.length chunk_list)
                               (snd item)))
           (enumerate chunk_list)
  /\ totalCompressedSize m = total_of (map compressedSize (manifest_chunks m))
  /\ eventNames m = names.
Proof.
  cbn zeta. unfold compress_and_save_chunks. rewrite pack_fold.
  cbn [manifest_file chunk_files manifest_chunks totalCompressedSize eventNames
       written entries total_compressed app].
  rewrite !map_map. cbn [entry_of filename compressedSize index dialogueCount
                           uncompressedSize fst snd].
  repeat split.
  - rewrite <- (map_map fst Z.of_nat), map_fst_enumerate. reflexivity.
  - rewrite <- (map_map snd (fun chunk => Z.of_nat (List.length chunk))),
      map_snd_enumerate. reflexivity.
Qed.

(** X14: the chunk files have pairwise different names, so no chunk is
    written over another. *)
Theorem chunk_files_distinct (chunk_list : list (list dialogue))
    (names : list (Z * string)) (version_token : string) (k : clock) :
  NoDup (map fst (chunk_files (compress_and_save_chunks gzip_compress chunk_list
                                 names version_token k))).
Proof.
  unfold compress_and_save_chunks. rewrite pack_fold.
  cbn [chunk_files written app]. rewrite map_map. cbn [fst].
  rewrite <- (map_map fst chunk_filename), map_fst_enumerate.
  apply Finite.Injective_map_NoDup; [|apply seq_NoDup].
  intros i j. apply chunk_filename_inj.
Qed.

Lemma total_of_lengths {A : Type} (cs : list (list A)) :
  total_of (map (fun c => Z.of_nat (List.length c)) cs)
  = Z.of_nat (List.length (List.concat cs)).
Proof.
  induction cs as [|c cs IH]; [reflexivity|].
  cbn [map total_of fold_right List.concat]. rewrite length_app.
  unfold total_of in IH. rewrite IH. lia.
Qed.

Lemma total_of_pos (l : list Z) :
  l <> [] -> Forall (fun x => 0 < x) l -> 0 < total_of l.
Proof.
  intros Hne H. destruct H as [|x l Hx Hl]; [congruence|].
  cbn [total_of fold_right].
  assert (0 <= fold_right Z.add 0 l).
  { clear Hne. induction Hl as [|y l Hy _ IH]; simpl; lia. }
  lia.
Qed.

Lemma chunk_bytes_positive (idx total : nat) (chunk : list dialogue) :
  0 < len (chunk_bytes idx total chunk).
Proof.
  unfold chunk_bytes, chunk_data, encode_utf8, dumps_compact.
  rewrite dumps_obj, len_append. change (len "{") with 1.
  unfold len. lia.
Qed.

(** X15: a run finishes normally exactly when the loader found at least one
    record; with none, the manifest is written with zero chunks and the
    summary then raises [ZeroDivisionError]. *)
Theorem build_finishes_iff_records (c : corpus) (k : clock) :
  finished (main py_int gzip_compress c k)
  = match fst (load_all_dialogues py_int c) with
    | [] => Raised ZeroDivisionError
    | _ :: _ => Returned tt
    end
  /\ (totalChunks (manifest_file (main py_int gzip_compress c k)) = 0
      <-> fst (load_all_dialogues py_int c) = []).
Proof.
  unfold main. destruct (load_all_dialogues py_int c) as [dialogues names].
  cbn [fst]. split.
  - unfold compress_and_save_chunks. rewrite pack_fold.
    cbn [finished total_uncompressed]. rewrite Z.add_0_l.
    destruct dialogues as [|d dialogues]; [reflexivity|].
    pose proof (split_concat (d :: dialogues) CHUNK_SIZE_BYTES) as Hc.
    destruct (split_into_chunks (d :: dialogues) CHUNK_SIZE_BYTES) as [|c0 cs];
      [discriminate Hc|].
    match goal with |- (if ?x =? 0 then _ else _) = _ =>
      assert (Hpos : 0 < x); [|destruct (Z.eqb_spec x 0); [lia | reflexivity]]
    end.
    apply total_of_pos; [discriminate|].
    apply Forall_forall. intros x Hx.
    apply in_map_iff in Hx as (item & <- & _). apply chunk_bytes_positive.
  - unfold compress_and_save_chunks. cbn [manifest_file totalChunks].
    pose proof (split_concat dialogues CHUNK_SIZE_BYTES) as Hc.
    destruct (split_into_chunks dialogues CHUNK_SIZE_BYTES) as [|c0 cs] eqn:Hs.
    + simpl in Hc. subst dialogues. tauto.
    + cbn [List.length]. split; [lia|]. intros ->. discriminate Hs.
Qed.

(** X16: the record counts of the manifest entries add up to the number of
    records the loader returned. *)
Theorem manifest_counts_all_records (c : corpus) (k : clock) :
  total_of (map dialogueCount
              (manifest_chunks (manifest_file (main py_int gzip_compress c k))))
  = Z.of_nat (List.length (fst (load_all_dialogues py_int c))).
Proof.
  unfold main. destruct (load_all_dialogues py_int c) as [dialogues names].
  cbn [fst]. unfold compress_and_save_chunks. rewrite pack_fold.
  cbn [manifest_file manifest_chunks entries app]. rewrite map_map.
  cbn [entry_of dialogueCount].
  rewrite <- (map_map snd (fun chunk => Z.of_nat (List.length chunk))),
    map_snd_enumerate, total_of_lengths, split_concat.
  reflexivity.
Qed.

End PackagerMore.

(** ** Minification *)

Lemma minify_fold_count (target_dir : string)
    (json_files : list (string * outcome json)) (n : Z) (t : tree) :
  fst (fold_left (minify_step target_dir) json_files (n, t))
  = n + Z.of_nat (List.length (filter (fun f => readable (snd f)) json_files)).
Proof.
  revert n t. induction json_files as [|[p input] files IH]; intros n t.
  - simpl. lia.
  - cbn [fold_left]. unfold minify_step at 2. cbn [fst snd].
    destruct input as [data|e]; cbn [minify_json readable filter snd];
      rewrite IH; cbn [List.length]; lia.
Qed.

Lemma filter_all {A : Type} (f : A -> bool) (l : list A) :
  List.length (filter f l) = List.length l <-> forallb f l = true.
Proof.
  induction l as [|x l IH]; simpl; [tauto|].
  pose proof (filter_length_le f l) as Hle.
  destruct (f x); simpl.
  - rewrite <- IH. lia.
  - split; [lia | discriminate].
Qed.

(** X17: [minify_scenario_files] reports success exactly when every source
    file could be read and parsed; with no source file it reports success. *)
Theorem minify_reports_all_readable (json_files : list (string * outcome json))
    (target_dir : string) (t : tree) :
  fst (minify_scenario_files json_files target_dir t)
  = forallb (fun f => readable (snd f)) json_files.
Proof.
  unfold minify_scenario_files. destruct json_files as [|f files]; [reflexivity|].
  pose proof (minify_fold_count target_dir (f :: files) 0 t) as Hn.
  destruct (fold_left (minify_step target_dir) (f :: files) (0, t)) as [n t'].
  cbn [fst] in *. subst n. rewrite Z.add_0_l.
  pose proof (filter_all (fun f => readable (snd f)) (f :: files)) as Hall.
  destruct (forallb (fun f => readable (snd f)) (f :: files)).
  - apply Z.eqb_eq. f_equal. now apply Hall.
  - apply Z.eqb_neq. intros H. apply Nat2Z.inj in H. apply Hall in H. discriminate.
Qed.

Lemma join_path_inj (dir p q : string) : join_path dir p = join_path dir q -> p = q.
Proof.
  unfold join_path. intros H.
  assert (Hpre : forall a x y, a +++ x = a +++ y -> x = y).
  { induction a as [|c a IH]; simpl; intros x y E; [exact E|].
    injection E as E. now apply IH. }
  apply Hpre in H. now injection H.
Qed.

(** A path that no readable source is written to keeps its text. *)
Lemma minify_fold_frame (target_dir path : string)
    (json_files : list (string * outcome json)) (n : Z) (t : tree) :
  (forall p data, In (p, Returned data) json_files -> path <> join_path target_dir p) ->
  snd (fold_left (minify_step target_dir) json_files (n, t)) path = t path.
Proof.
  revert n t. induction json_files as [|[p input] files IH]; intros n t H;
    [reflexivity|].
  cbn [fold_left]. unfold minify_step at 2. cbn [fst snd].
  destruct input as [data|e]; cbn [minify_json].
  - rewrite IH by (intros p' d' Hin; apply (H p' d'); now right).
    unfold write_text. destruct (String.eqb_spec path (join_path target_dir p)); auto.
    exfalso. apply (H p data); [now left | assumption].
  - apply IH. intros p' d' Hin. apply (H p' d'). now right.
Qed.

(** X18: after [minify_scenario_files], the target of every source that could
    be parsed holds the compact serialization of its data (sources are listed
    once each, as a glob lists them). *)
Theorem minified_target_is_compact (json_files : list (string * outcome json))
    (target_dir : string) (t : tree) (p : string) (data : json) :
  NoDup (map fst json_files) ->
  In (p, Returned data) json_files ->
  snd (minify_scenario_files json_files target_dir t) (join_path target_dir p)
  = Some (dumps_compact data).
Proof.
  intros Hnd Hin.
  assert (H : forall n, snd (fold_left (minify_step target_dir) json_files (n, t))
                          (join_path target_dir p) = Some (dumps_compact data)).
  { revert t Hnd Hin. induction json_files as [|[p0 i0] files IH];
      intros t Hnd Hin n; [destruct Hin|].
    cbn [map fst] in Hnd. apply NoDup_cons_iff in Hnd as [Hnotin Hnd].
    cbn [fold_left]. unfold minify_step at 2. cbn [fst snd].
    destruct Hin as [[= -> ->] | Hin].
    - cbn [minify_json]. rewrite minify_fold_frame.
      + unfold write_text. now rewrite String.eqb_refl.
      + intros p' d' Hin' E. apply join_path_inj in E. subst p'.
        apply Hnotin. apply (in_map fst) in Hin'. exact Hin'.
    - destruct (minify_json i0 (join_path target_dir p0) t) as [ok t'].
      now apply IH. }
  unfold minify_scenario_files. destruct json_files as [|f files]; [destruct Hin|].
  specialize (H 0).
  destruct (fold_left (minify_step target_dir) (f :: files) (0, t)). exact H.
Qed.

Lemma minified_target_is_compact_witness :
  NoDup (map fst main_sources)
  /\ In ("scenario_main_001.json",
         Returned (JObj [("Title", JStr "One"); ("Dialogue", JArr [])]))
        main_sources
  /\ snd (minify_scenario_files main_sources "public/scenario/main" earlier_target)
       (join_path "public/scenario/main" "scenario_main_001.json")
     = Some (dumps_compact (JObj [("Title", JStr "One"); ("Dialogue", JArr [])])).
Proof.
  assert (Hnd : NoDup (map fst main_sources)).
  { repeat constructor; simpl; intuition discriminate. }
  assert (Hin : In ("scenario_main_001.json",
                    Returned (JObj [("Title", JStr "One"); ("Dialogue", JArr [])]))
                   main_sources) by (left; reflexivity).
  split; [exact Hnd|]. split; [exact Hin|].
  apply (minified_target_is_compact main_sources "public/scenario/main"
           earlier_target "scenario_main_001.json"
           (JObj [("Title", JStr "One"); ("Dialogue", JArr [])]) Hnd Hin).
Defined.

(** X19: [minify_scenario_files] touches nothing but the targets of the
    sources it could parse; in particular the target of a source that failed
    keeps whatever an earlier run left there. *)
Theorem minify_leaves_other_paths (json_files : list (string * outcome json))
    (target_dir : string) (t : tree) (path : string) :
  (forall p data, In (p, Returned data) json_files ->
                  path <> join_path target_dir p) ->
  snd (minify_scenario_files json_files target_dir t) path = t path.
Proof.
  intros H. unfold minify_scenario_files.
  destruct json_files as [|f files]; [reflexivity|].
  pose proof (minify_fold_frame target_dir path (f :: files) 0 t H) as Hf.
  destruct (fold_left (minify_step target_dir) (f :: files) (0, t)). exact Hf.
Qed.

Lemma minify_leaves_other_paths_witness :
  (forall p data, In (p, Returned data) main_sources ->
                  "public/scenario/main/scenario_main_002.json"
                  <> join_path "public/scenario/main" p)
  /\ snd (minify_scenario_files main_sources "public/scenario/main" earlier_target)
       "public/scenario/main/scenario_main_002.json"
     = earlier_target "public/scenario/main/scenario_main_002.json".
Proof.
  assert (H : forall p data, In (p, Returned data) main_sources ->
                "public/scenario/main/scenario_main_002.json"
                <> join_path "public/scenario/main" p).
  { intros p data [[= <- _] | [[=] | []]]. discriminate. }
  split; [exact H|].
  apply (minify_leaves_other_paths main_sources "public/scenario/main"
           earlier_target "public/scenario/main/scenario_main_002.json" H).
Defined.

(** ** Appending to the corpus *)

(** X20: records added at the end of the sequence leave the earlier chunks as
    they were: all chunks of the shorter sequence but its last one open the
    chunk list of the longer sequence. *)
Theorem earlier_chunks_stable (R1 R2 : list dialogue) (B : Z) :
  exists rest,
    split_into_chunks (R1 ++ R2) B
    = removelast (split_into_chunks R1 B) ++ rest.
Proof.
  unfold split_into_chunks. rewrite fold_left_app.
  destruct (fold_left (split_step B) R1 (mkSplit [] [] 0)) as [cs cur sz].
  rewrite split_finish_frame. cbn [chunks current_chunk current_size].
  unfold split_finish at 2. cbn [chunks current_chunk].
  destruct cur as [|x cur]; cbn [truthy].
  - destruct (nil_or_snoc cs) as [-> | (cs' & z & ->)].
    + eexists. reflexivity.
    + rewrite removelast_last. eexists. rewrite <- app_assoc. reflexivity.
  - rewrite removelast_last. eexists. reflexivity.
Qed.

Section UntitledEvents.

Variable py_int : string -> option Z.

(** X21: an event or caulis document that has no [Title] key is read like a
    document of any other type: [int] is not called on its scenario id, and
    its dialogues are extracted whatever the id looks like. *)
Theorem untitled_event_document_processed (scenario_type : string) (f : json_file)
    (members : list (string * json)) (acc : accumulators) :
  contents f = Returned (JObj members) ->
  dict_get "Title" members = None ->
  process_regular py_int scenario_type f acc
  = process_special scenario_type (regular_prefix scenario_type) f acc.
Proof.
  intros Hf Ht. unfold process_regular, process_special, bind at 1 3, load.
  rewrite Hf.
  replace (str_replace (regular_prefix scenario_type) "" (stem f))
    with (regular_scenario_id scenario_type f)
    by (unfold regular_scenario_id, regular_prefix;
        now destruct (String.eqb scenario_type "caulis")).
  unfold extract_event_name, py_in.
  destruct (event_bearing scenario_type); unfold bind, ret; [rewrite Ht|];
    reflexivity.
Qed.

End UntitledEvents.

Lemma untitled_event_document_processed_witness :
  contents untitled_file
  = Returned (JObj [("Dialogue", JArr [JArr [JStr "A"; JStr "hi"]])])
  /\ dict_get "Title" [("Dialogue", JArr [JArr [JStr "A"; JStr "hi"]])] = None
  /\ process_regular (fun _ => None) "event" untitled_file (mkAcc [] [])
     = process_special "event" (regular_prefix "event") untitled_file (mkAcc [] []).
Proof.
  split; [reflexivity|]. split; [reflexivity|].
  apply (untitled_event_document_processed (fun _ => None) "event" untitled_file
           [("Dialogue", JArr [JArr [JStr "A"; JStr "hi"]])] (mkAcc [] []));
    reflexivity.
Defined.

(** Here the document yields its record although no text parses as an int. *)
Example untitled_event_document_kept :
  load_all_dialogues (fun _ => None) (only_event [untitled_file])
  = ([mkDialogue "event" "extra-2" (JStr "A") (JStr "hi") (JStr "")], []).
Proof. reflexivity. Qed.

(** ** The measure that decides the chunk boundaries *)

Lemma greedy_ext (size1 size2 : dialogue -> Z) (B : Z) (R : list dialogue) :
  (forall d, size1 d = size2 d) ->
  forall open_chunk running,
    greedy size1 B open_chunk running R = greedy size2 B open_chunk running R.
Proof.
  intros H. induction R as [|d R IH]; intros open_chunk running; simpl;
    [reflexivity|].
  rewrite H, !IH. reflexivity.
Qed.

(** The loop of [split_into_chunks] is the greedy accumulation, with
    [dialogue_size] as the measure. *)
Lemma split_finish_greedy (B : Z) (R : list dialogue) (st : split_state) :
  split_finish (fold_left (split_step B) R st)
  = chunks st ++ greedy dialogue_size B (current_chunk st) (current_size st) R.
Proof.
  revert st. induction R as [|d R IH]; intros [cs cur sz].
  - unfold split_finish. cbn [fold_left greedy chunks current_chunk current_size].
    destruct (truthy cur); [reflexivity | now rewrite app_nil_r].
  - cbn [fold_left greedy chunks current_chunk current_size]. rewrite IH.
    unfold split_step. cbn [chunks current_chunk current_size].
    destruct ((sz + dialogue_size d >? B) && truthy cur);
      cbn [chunks current_chunk current_size app].
    + rewrite <- app_assoc. reflexivity.
    + reflexivity.
Qed.

(** C8, as stated, at two records and a budget of 170: their compact
    encodings (83 bytes each) would share a chunk, but the splitter, which
    measures 92 bytes each, separates them. *)
Lemma dialogue_size_not_compact : ~ boundaries_by_compact_size [line_a; line_b] 170.
Proof. unfold boundaries_by_compact_size. vm_compute. discriminate. Qed.

(** C8 (amended): the chunk boundaries of [split_into_chunks] are those of the
    greedy accumulation that measures a record by the byte length of the
    record serialised on its own with the default separators of [json.dumps]
    (comma-space and colon-space, keys in insertion order); that measure is
    at least nine bytes more than the record takes in the compact encoding of
    the chunk files, and exactly nine more when speaker, content and title
    are strings. *)
Theorem dialogue_size_is_default_encoding (R : list dialogue) (B : Z) :
  split_into_chunks R B = greedy default_size B [] 0 R
  /\ (forall d, dialogue_size d = default_size d
                /\ default_size d >= compact_size d + 9)
  /\ forall scenario_type scenario_id speaker_text content_text title_text,
       default_size (mkDialogue scenario_type scenario_id
                       (JStr speaker_text) (JStr content_text) (JStr title_text))
       = compact_size (mkDialogue scenario_type scenario_id
                         (JStr speaker_text) (JStr content_text) (JStr title_text))
         + 9.
Proof.
  split; [|split].
  - unfold split_into_chunks. rewrite split_finish_greedy.
    cbn [chunks current_chunk current_size app].
    apply greedy_ext. apply dialogue_size_default.
  - intros d. split; [apply dialogue_size_default | apply default_size_compact].
  - apply default_size_strings.
Qed.

(** ** The event-name mapping, entry by entry *)

Section FirstWins.

Variable py_int : string -> option Z.

Lemma names_get_seen (event_id : Z) (names : list (Z * string)) :
  existsb (fun k => Z.eqb k event_id) (map fst names)
  = match names_get event_id names with Some _ => true | None => false end.
Proof.
  induction names as [|[k v] names IH]; simpl; [reflexivity|].
  destruct (Z.eqb k event_id); [reflexivity | exact IH].
Qed.

Lemma fold_names_keep_first (docs : list document) (names : list (Z * string)) :
  fold_left (fun names doc => add_first_wins (event_entry py_int doc) names)
    docs names
  = names ++ keep_first (map fst names) (offered py_int docs).
Proof.
  revert names. induction docs as [|doc docs IH]; intros names; simpl.
  - now rewrite app_nil_r.
  - rewrite IH. destruct (event_entry py_int doc) as [[k v]|]; simpl;
      [|reflexivity].
    rewrite names_get_seen.
    destruct (names_get k names); [reflexivity|].
    rewrite map_app, <- app_assoc. reflexivity.
Qed.

(** C5: the event-name mapping holds, in order, exactly the entries offered
    for an id that no earlier document in discovery order had offered an
    entry for, and nothing else; so the title stored for an id is the one of
    the first document that maps to it.  A document met when its id already
    has a title leaves the mapping as it is, and otherwise adds its entry
    behind the others. *)
Theorem event_names_first_wins (c : corpus) (event_id : Z) :
  names_get event_id (snd (load_all_dialogues py_int c))
  = names_get event_id (offered py_int (discovery c))
  /\ (forall doc acc,
        names_get event_id (event_names (try_except (process py_int doc) acc))
        = match names_get event_id (event_names acc) with
          | Some t => Some t
          | None => names_get event_id (offered py_int [doc])
          end)
  /\ snd (load_all_dialogues py_int c)
     = keep_first [] (offered py_int (discovery c))
  /\ (forall doc acc,
        event_names (try_except (process py_int doc) acc)
        = add_first_wins (event_entry py_int doc) (event_names acc)).
Proof.
  split; [|split; [|split]].
  - rewrite load_all_dialogues_fold. cbn zeta. cbn [snd].
    now rewrite fold_process_names.
  - intros doc acc. apply (fold_process_names py_int [doc] acc event_id).
  - rewrite load_all_dialogues_fold. cbn zeta. cbn [snd].
    rewrite fold_names, fold_names_keep_first. reflexivity.
  - intros doc acc. apply process_names.
Qed.

End FirstWins.
